(** * icrawler: the parser worker loop and the crawl orchestration

    A shallow embedding of [Parser.worker_exec] (icrawler/parser.py) and of
    [Crawler.crawl] (icrawler/crawler.py).

    Both functions are loops around calls into shared objects (the signal
    registry, the queues, the HTTP session, the user's [parse] override).
    The embedding makes each such call one tick of a small-step machine:
    the machine state holds the program point and the live local variables,
    the answer of the outside world at tick [t] is read from an oracle, and
    every call the worker makes is recorded as an event. *)

From Stdlib Require Import ZArith.
From stdpp Require Import gmap strings list.

Open Scope string_scope.
Open Scope list_scope.

(** ** Python values that travel through the pipeline *)

(** A download task is a [dict] with string keys, e.g. [{"file_url": ...}]. *)
Definition dict := list (string * string).

(** What the generator returned by [parse] may yield: the worker only
    distinguishes [isinstance(task, dict)], [isinstance(task, str)] and
    everything else. *)
Inductive pyval :=
| PDict (d : dict)
| PStr (s : string)
| POther (repr : string).

(** An exception, by class name.  Only instances of [Exception] are
    modelled: a worker thread never receives [KeyboardInterrupt], and the
    queue and transport contracts raise ordinary errors only. *)
Inductive exn := Exc (cls : string).

Definition response := string.

(** The iterator consumed by [for task in self.parse(response, **kwargs)]:
    a finite run of yields that ends normally or by raising. *)
Inductive gen :=
| GYield (x : pyval) (rest : gen)
| GStop
| GRaise (e : exn).

Inductive get_result := GetItem (url : string) | GetEmpty | GetRaise (e : exn).
Inductive fetch_result := FetchOk (r : response) | FetchRaise (e : exn).
Inductive put_result := PutOk | PutFull | PutRaise (e : exn).

(** ** The signal registry *)

Module Signal.

(** Modelled from the spec: the class [Signal] of icrawler/utils is not
    among the sources.  A registry maps names to flags; [get(name)] returns
    the current value, and for an unknown name a default that reads as
    false. *)
Definition get (s : gmap string bool) (name : string) : bool :=
  default false (s !! name).

(** Modelled from the spec: [Signal.set(name=value)] stores or overwrites
    a flag. *)
Definition set (s : gmap string bool) (name : string) (v : bool) : gmap string bool :=
  <[name := v]> s.

(** Modelled from the spec: [Signal.reset()] restores all flags to their
    initial, false, values. *)
Definition reset (s : gmap string bool) : gmap string bool :=
  (fun _ => false) <$> s.

(** [Crawler.init_signal]: the three flags, all false. *)
Definition init : gmap string bool :=
  set (set (set ∅ "feeder_exited" false) "parser_exited" false) "reach_max_num" false.

End Signal.

(** ** The parser worker *)

(** A [Parser] subclass is its [parse] override. *)
Record Parser := { parse : response -> gen }.

(** [Parser.parse] of the base class: [raise NotImplementedError]. *)
Definition base_parser : Parser :=
  {| parse := fun _ => GRaise (Exc "NotImplementedError") |}.

(** Keyword arguments of [worker_exec]. *)
Record args := { queue_timeout : Z; req_timeout : Z; max_retry : Z }.

Definition default_args : args :=
  {| queue_timeout := 2; req_timeout := 5; max_retry := 3 |}.

(** What the rest of the process answers at one tick. *)
Record obs := {
  o_signal : gmap string bool;          (* the registry as the worker reads it *)
  o_get    : get_result;                (* self.in_queue.get(timeout=...)    *)
  o_fetch  : string -> fetch_result;    (* urlsplit + self.session.get(...)  *)
  o_output : dict -> put_result;        (* self.output(task, timeout=1)      *)
  o_input  : string -> put_result       (* self.input(task, timeout=1)       *)
}.

Definition world := nat -> obs.

Inductive level := INFO | DEBUG | ERROR.

Inductive logmsg :=
| MsgQuotaReached
| MsgNoMoreUrls
| MsgWaiting
| MsgDequeueError
| MsgStartFetch (url : string)
| MsgFetchError (url : string) (e : exn) (remaining : Z)
| MsgParsing (url : string)
| MsgPutError (task : pyval) (url : string)
| MsgThreadExit.

Inductive event :=
| EvLog (l : level) (m : logmsg)
| EvGet (timeout : Z) (r : get_result)
| EvRequest (url : string) (timeout : Z) (r : fetch_result)
| EvParse (r : response)
| EvOutput (task : dict) (timeout : Z) (r : put_result)
| EvInput (task : string) (timeout : Z) (r : put_result)
| EvSleep (secs : Z)
| EvTaskDone.

Inductive exit_reason := QuotaExit | SourceExhausted.

(** Program points of [worker_exec], with the locals live there. *)
Inductive state :=
| STop                                                   (* line 59 *)
| SDequeue                                               (* line 66 *)
| SEmpty                                                 (* line 68 *)
| SFetch (url : string) (retry : Z)                      (* lines 83-84 *)
| SGuard (url : string) (retry : Z) (task : pyval) (g : gen)   (* line 95 *)
| SPush (url : string) (retry : Z) (task : pyval) (g : gen)    (* lines 97-103 *)
| SAfter (url : string) (retry : Z) (g : gen)            (* line 112 *)
| SExited (r : exit_reason)                              (* after line 118 *)
| SCrashed (e : exn).                                    (* exception left worker_exec *)

(** [while retry > 0:] *)
Definition retry_loop (url : string) (retry : Z) : state :=
  if (0 <? retry)%Z then SFetch url retry else STop.

(** One turn of [for task in ...]: the next item, the end of the iterator
    (then [task_done()] and [break], line 114-115), or an exception, which
    no handler of the [try] statement covers since the loop sits in its
    [else] clause. *)
Definition next_item (url : string) (retry : Z) (g : gen) : state * list event :=
  match g with
  | GYield x rest => (SGuard url retry x rest, [])
  | GStop => (STop, [EvTaskDone])
  | GRaise e => (SCrashed e, [])
  end.

Section Worker.

Variable P : Parser.
Variable a : args.

Definition worker_step (o : obs) (st : state) : state * list event :=
  match st with
  | STop =>
      if Signal.get (o_signal o) "reach_max_num"
      then (SExited QuotaExit, [EvLog INFO MsgQuotaReached; EvLog INFO MsgThreadExit])
      else (SDequeue, [])
  | SDequeue =>
      match o_get o with
      | GetItem url =>
          (retry_loop url (max_retry a),
           [EvGet (queue_timeout a) (GetItem url); EvLog DEBUG (MsgStartFetch url)])
      | GetEmpty => (SEmpty, [EvGet (queue_timeout a) GetEmpty])
      | GetRaise e =>
          (STop, [EvGet (queue_timeout a) (GetRaise e); EvLog ERROR MsgDequeueError])
      end
  | SEmpty =>
      if Signal.get (o_signal o) "feeder_exited"
      then (SExited SourceExhausted, [EvLog INFO MsgNoMoreUrls; EvLog INFO MsgThreadExit])
      else (STop, [EvLog INFO MsgWaiting])
  | SFetch url retry =>
      match o_fetch o url with
      | FetchRaise e =>
          (retry_loop url (retry - 1),
           [EvRequest url (req_timeout a) (FetchRaise e);
            EvLog ERROR (MsgFetchError url e (retry - 1))])
      | FetchOk r =>
          let '(st', evs) := next_item url retry (parse P r) in
          (st', [EvRequest url (req_timeout a) (FetchOk r);
                 EvLog INFO (MsgParsing url); EvParse r] ++ evs)
      end
  | SGuard url retry task g =>
      if Signal.get (o_signal o) "reach_max_num"
      then (SAfter url retry g, [])
      else (SPush url retry task g, [])
  | SPush url retry task g =>
      match task with
      | PDict d =>
          match o_output o d with
          | PutOk => (SAfter url retry g, [EvOutput d 1 PutOk])
          | PutFull => (SGuard url retry task g, [EvOutput d 1 PutFull; EvSleep 1])
          | PutRaise e =>
              (SGuard url retry task g,
               [EvOutput d 1 (PutRaise e); EvLog ERROR (MsgPutError task url)])
          end
      | PStr s =>
          match o_input o s with
          | PutOk => (SAfter url retry g, [EvInput s 1 PutOk])
          | PutFull => (SGuard url retry task g, [EvInput s 1 PutFull; EvSleep 1])
          | PutRaise e =>
              (SGuard url retry task g,
               [EvInput s 1 (PutRaise e); EvLog ERROR (MsgPutError task url)])
          end
      | POther _ => (SAfter url retry g, [])
      end
  | SAfter url retry g =>
      if Signal.get (o_signal o) "reach_max_num"
      then (STop, [EvTaskDone])
      else next_item url retry g
  | SExited r => (SExited r, [])
  | SCrashed e => (SCrashed e, [])
  end.

(** [worker_exec] for [n] ticks, from tick [t] and program point [st]:
    the program point reached and the events on the way. *)
Fixpoint worker_exec (w : world) (t n : nat) (st : state) : state * list event :=
  match n with
  | O => (st, [])
  | S n' =>
      let '(st1, ev1) := worker_step (w t) st in
      let '(st2, ev2) := worker_exec w (S t) n' st1 in
      (st2, ev1 ++ ev2)
  end.

End Worker.

Definition final_state (r : state * list event) : state := r.1.
Definition trace (r : state * list event) : list event := r.2.

Definition terminal (st : state) : bool :=
  match st with SExited _ | SCrashed _ => true | _ => false end.

(** ** Reading traces *)

(** [self.signal.get("reach_max_num")] at tick [t]. *)
Definition quota_at (w : world) (t : nat) : bool :=
  Signal.get (o_signal (w t)) "reach_max_num".

Definition feeder_exited_at (w : world) (t : nat) : bool :=
  Signal.get (o_signal (w t)) "feeder_exited".

(** The signal is set at tick [t0] and stays set. *)
Definition quota_set_from (w : world) (t0 : nat) : Prop :=
  forall t, t0 <= t -> quota_at w t = true.

(** An item that reached a queue: a put that returned normally. *)
Definition emission (e : event) : option pyval :=
  match e with
  | EvOutput d _ PutOk => Some (PDict d)
  | EvInput s _ PutOk => Some (PStr s)
  | _ => None
  end.

Definition emitted (tr : list event) : list pyval := omap emission tr.

Definition is_request (e : event) : bool :=
  match e with EvRequest _ _ _ => true | _ => false end.

Definition is_fetch_ok (e : event) : bool :=
  match e with EvRequest _ _ (FetchOk _) => true | _ => false end.

Definition is_get (e : event) : bool :=
  match e with EvGet _ _ => true | _ => false end.

Definition is_got (e : event) : bool :=
  match e with EvGet _ (GetItem _) => true | _ => false end.

Definition is_task_done (e : event) : bool :=
  match e with EvTaskDone => true | _ => false end.

Definition is_put (e : event) : bool :=
  match e with EvOutput _ _ _ | EvInput _ _ _ => true | _ => false end.

Fixpoint count (f : event -> bool) (tr : list event) : nat :=
  match tr with
  | [] => 0
  | e :: rest => (if f e then 1 else 0) + count f rest
  end.

(** The items a generator yields before it stops or raises. *)
Fixpoint items (g : gen) : list pyval :=
  match g with
  | GYield x rest => x :: items rest
  | GStop | GRaise _ => []
  end.

Fixpoint raises (g : gen) : bool :=
  match g with
  | GYield _ rest => raises rest
  | GStop => false
  | GRaise _ => true
  end.

(** [isinstance(task, dict) or isinstance(task, str)] *)
Definition is_task_or_locator (x : pyval) : bool :=
  match x with PDict _ | PStr _ => true | POther _ => false end.

(** The answer of the queue that the item [x] is put on. *)
Definition put_answer (o : obs) (x : pyval) : put_result :=
  match x with
  | PDict d => o_output o d
  | PStr s => o_input o s
  | POther _ => PutOk
  end.

(** The put of item [x], as an event. *)
Definition put_event (x : pyval) (r : put_result) : list event :=
  match x with
  | PDict d => [EvOutput d 1 r]
  | PStr s => [EvInput s 1 r]
  | POther _ => []
  end.

(** The generator held at a program point, if any. *)
Definition pending_gen (st : state) : gen :=
  match st with
  | SGuard _ _ _ g | SPush _ _ _ g | SAfter _ _ g => g
  | _ => GStop
  end.

(** The worker is inside a put whose guard (line 95) it has passed. *)
Definition in_flight (st : state) : bool :=
  match st with SPush _ _ _ _ => true | _ => false end.

(** A fetched locator whose [task_done()] is still to come. *)
Definition holds_fetched (st : state) : nat :=
  match st with
  | SGuard _ _ _ _ | SPush _ _ _ _ | SAfter _ _ _ | SCrashed _ => 1
  | _ => 0
  end.

(** Ticks a worker needs at most to stop once the quota signal stays set. *)
Definition quota_bound (a : args) (st : state) : nat :=
  match st with
  | STop => 1
  | SEmpty => 2
  | SDequeue => Z.to_nat (max_retry a) + 5
  | SFetch _ retry => Z.to_nat retry + 4
  | SGuard _ _ _ _ => 3
  | SPush _ _ _ _ => 4
  | SAfter _ _ _ => 2
  | SExited _ | SCrashed _ => 0
  end.


(** The events of [n] puts of [x] that met a full queue. *)
Fixpoint backpressure (x : pyval) (n : nat) : list event :=
  match n with
  | O => []
  | S n' => put_event x PutFull ++ [EvSleep 1] ++ backpressure x n'
  end.

(** An event of a put of [x] that did not go through. *)
Definition failed_put_event (x : pyval) (url : string) (e : event) : Prop :=
  match e with
  | EvOutput d _ r => x = PDict d /\ r <> PutOk
  | EvInput s _ r => x = PStr s /\ r <> PutOk
  | EvSleep _ => True
  | EvLog ERROR (MsgPutError y u) => y = x /\ u = url
  | _ => False
  end.

(** ** The worker against its own pool *)

(** Modelled from the spec: [ThreadPool] (icrawler/utils) is not among the
    sources.  A pool owns one bounded FIFO input queue and, once connected,
    uses the input queue of the next pool as its output queue;
    [output(item, timeout)] pushes on the output queue and [input(item,
    timeout)] on the pool's own input queue, both failing with [queue.Full]
    when the queue is saturated; a size of [0] means no bound.  The input
    queue counts its unfinished tasks: one more per put, one less per
    [task_done()]. *)
Record pool := {
  in_queue   : list string;
  in_size    : nat;
  unfinished : Z;
  out_queue  : list dict;
  out_size   : nat
}.

(** Modelled from the spec: a bounded queue is full when it holds its
    maximum capacity. *)
Definition queue_full {A} (size : nat) (q : list A) : bool :=
  (0 <? size)%nat && (size <=? length q)%nat.

(** Modelled from the spec: [in_queue.get(timeout)] with no other thread
    at work: the head of the queue, or [queue.Empty] after the wait. *)
Definition pool_get (p : pool) : get_result :=
  match in_queue p with
  | [] => GetEmpty
  | url :: _ => GetItem url
  end.

(** Modelled from the spec: [ThreadPool.output(item, timeout)] fails with
    [queue.Full] if the connected output queue is saturated. *)
Definition pool_output (p : pool) (d : dict) : put_result :=
  if queue_full (out_size p) (out_queue p) then PutFull else PutOk.

(** Modelled from the spec: [ThreadPool.input(item, timeout)], the same
    on the pool's own input queue. *)
Definition pool_input (p : pool) (s : string) : put_result :=
  if queue_full (in_size p) (in_queue p) then PutFull else PutOk.

(** The answers of the queues are those of the pool; signals and the
    transport stay with the world. *)
Definition pool_obs (o : obs) (p : pool) : obs :=
  {| o_signal := o_signal o;
     o_get := pool_get p;
     o_fetch := o_fetch o;
     o_output := pool_output p;
     o_input := pool_input p |}.

(** Modelled from the spec: the effect of the worker's calls on the
    queues of its [ThreadPool].  A [get] takes the head of the input queue,
    an accepted [input] appends to it and counts one more unfinished task,
    an accepted [output] appends to the output queue, [task_done()] counts
    one unfinished task less. *)
Definition pool_apply (p : pool) (e : event) : pool :=
  match e with
  | EvGet _ (GetItem _) =>
      {| in_queue := tail (in_queue p); in_size := in_size p;
         unfinished := unfinished p;
         out_queue := out_queue p; out_size := out_size p |}
  | EvInput s _ PutOk =>
      {| in_queue := in_queue p ++ [s]; in_size := in_size p;
         unfinished := unfinished p + 1;
         out_queue := out_queue p; out_size := out_size p |}
  | EvOutput d _ PutOk =>
      {| in_queue := in_queue p; in_size := in_size p;
         unfinished := unfinished p;
         out_queue := out_queue p ++ [d]; out_size := out_size p |}
  | EvTaskDone =>
      {| in_queue := in_queue p; in_size := in_size p;
         unfinished := unfinished p - 1;
         out_queue := out_queue p; out_size := out_size p |}
  | _ => p
  end.

Definition pool_step (P : Parser) (a : args) (o : obs) (c : state * pool)
  : state * pool * list event :=
  let '(st', evs) := worker_step P a (pool_obs o c.2) c.1 in
  (st', foldl pool_apply c.2 evs, evs).

(** A pool whose only running thread is this worker. *)
Fixpoint pool_exec (P : Parser) (a : args) (w : world) (t n : nat) (c : state * pool)
  : state * pool * list event :=
  match n with
  | O => (c, [])
  | S n' =>
      let '(c1, ev1) := pool_step P a (w t) c in
      let '(c2, ev2) := pool_exec P a w (S t) n' c1 in
      (c2, ev1 ++ ev2)
  end.

(** The locators taken from the input queue, in order. *)
Definition dequeued (tr : list event) : list string :=
  omap (fun e => match e with EvGet _ (GetItem url) => Some url | _ => None end) tr.

(** The locators put back on the input queue, in order. *)
Definition requeued (tr : list event) : list string :=
  omap (fun e => match e with EvInput s _ PutOk => Some s | _ => None end) tr.

(** The tasks forwarded to the output queue, in order. *)
Definition forwarded (tr : list event) : list dict :=
  omap (fun e => match e with EvOutput d _ PutOk => Some d | _ => None end) tr.

(** The locators on which the fetch loop was entered (line 78). *)
Definition started (tr : list event) : list string :=
  omap (fun e => match e with EvLog DEBUG (MsgStartFetch url) => Some url | _ => None end) tr.

(** ** The orchestrator *)

Inductive stage := feeder | parser | downloader.

Inductive cmsg :=
| MsgStartCrawling
| MsgStarting (s : stage) (thread_num : Z)
| MsgCrawlDone.

Inductive cevent :=
| CSignalReset
| CLog (m : cmsg)
| CStart (s : stage) (kwargs : dict)
| CIsAlive (s : stage) (r : bool)
| CSignalSet (name : string) (v : bool)
| CSleep (secs : Z)
| CEmpty (s : stage) (r : bool)
| CClearBuffer (s : stage) (positional : list bool).

(** [if not self.<s>.is_alive(): self.signal.set(<name>=True)] *)
Definition check_alive (s : stage) (name : string) (alive : bool) : list cevent :=
  CIsAlive s alive :: (if alive then [] else [CSignalSet name true]).

(** One turn of the [while True] of [crawl], up to the test of the
    downloader (lines 177-181). *)
Definition poll_once (alive : stage -> bool) : list cevent :=
  check_alive feeder "feeder_exited" (alive feeder) ++
  check_alive parser "parser_exited" (alive parser) ++
  [CIsAlive downloader (alive downloader)].

(** The [while True] of [crawl] (lines 176-183).  Each element of [polls]
    answers the three [is_alive()] calls of one turn.  The result is the
    calls made and whether the loop was left; it is still polling when the
    answers run out. *)
Fixpoint poll (polls : list (stage -> bool)) : list cevent * bool :=
  match polls with
  | [] => ([], false)
  | alive :: rest =>
      if alive downloader
      then let '(evs, done) := poll rest in (poll_once alive ++ CSleep 1 :: evs, done)
      else (poll_once alive, true)
  end.

(** [if not self.<s>.in_queue.empty(): self.<s>.clear_buffer(...)], called
    with the positional arguments given. *)
Definition clear_if_nonempty (s : stage) (positional : list bool) (empty : bool)
  : list cevent :=
  CEmpty s empty :: (if empty then [] else [CClearBuffer s positional]).

(** Lines 185-190. *)
Definition drain (empty : stage -> bool) : list cevent :=
  clear_if_nonempty feeder [] (empty feeder) ++
  clear_if_nonempty parser [] (empty parser) ++
  clear_if_nonempty downloader [true] (empty downloader).

(** Lines 160-174. *)
Definition startup (thread_num : stage -> Z) (feeder_kwargs parser_kwargs downloader_kwargs : option dict)
  : list cevent :=
  [CSignalReset; CLog MsgStartCrawling;
   CLog (MsgStarting feeder (thread_num feeder));
   CStart feeder (default [] feeder_kwargs);
   CLog (MsgStarting parser (thread_num parser));
   CStart parser (default [] parser_kwargs);
   CLog (MsgStarting downloader (thread_num downloader));
   CStart downloader (default [] downloader_kwargs)].

(** [Crawler.crawl]: the calls it makes, in order, and whether it has
    returned. *)
Definition crawl (thread_num : stage -> Z)
    (feeder_kwargs parser_kwargs downloader_kwargs : option dict)
    (polls : list (stage -> bool)) (empty : stage -> bool) : list cevent * bool :=
  let '(evs, done) := poll polls in
  (startup thread_num feeder_kwargs parser_kwargs downloader_kwargs
   ++ evs ++ (if done then drain empty ++ [CLog MsgCrawlDone] else []),
   done).

(** The registry after the writes of a [crawl] trace. *)
Definition signal_write (s : gmap string bool) (e : cevent) : gmap string bool :=
  match e with
  | CSignalReset => Signal.reset s
  | CSignalSet name v => Signal.set s name v
  | _ => s
  end.

(** The [clear_buffer] calls of a trace, with their arguments. *)
Definition clears (tr : list cevent) : list (stage * list bool) :=
  omap (fun e => match e with CClearBuffer s args => Some (s, args) | _ => None end) tr.

(** The pools started, in order. *)
Definition starts (tr : list cevent) : list stage :=
  omap (fun e => match e with CStart s _ => Some s | _ => None end) tr.

(** The answers of [self.downloader.is_alive()], in order. *)
Definition downloader_alive (tr : list cevent) : list bool :=
  omap (fun e => match e with CIsAlive downloader r => Some r | _ => None end) tr.

(** No exception has left the worker, and none is waiting in the
    generator it holds. *)
Definition safe (st : state) : bool :=
  match st with
  | SCrashed _ => false
  | _ => negb (raises (pending_gen st))
  end.

(** The quota signal is unset and every put goes through. *)
Definition calm (o : obs) : Prop :=
  Signal.get (o_signal o) "reach_max_num" = false /\ forall x, put_answer o x = PutOk.

(** The fetch attempts a program point may still make on its locator. *)
Definition budget (st : state) : Z :=
  match st with
  | SFetch _ retry => Z.max 1 retry
  | _ => 0
  end.

(** A worker that has seen its [get] time out faces an empty input queue. *)
Definition empty_seen (st : state) (p : pool) : Prop :=
  match st with
  | SEmpty | SExited SourceExhausted => in_queue p = []
  | _ => True
  end.

(** The worker is in the fetch loop of a locator. *)
Definition fetching (st : state) : nat :=
  match st with SFetch _ _ => 1 | _ => 0 end.

(** A dequeued locator the worker has not yet let go of. *)
Definition owes (st : state) : Z :=
  match st with
  | SFetch _ _ | SGuard _ _ _ _ | SPush _ _ _ _ | SAfter _ _ _ => 1
  | _ => 0
  end.

(** ** Sample parsers and worlds *)

Definition sample_task : dict := [("file_url", "http://example.com/1.jpg")].

Definition sample_url : string := "http://example.com/page".

(** A [parse] that yields one task. *)
Definition one_task_parser : Parser :=
  {| parse := fun _ => GYield (PDict sample_task) GStop |}.

(** A [parse] that yields a task, a locator and an [int]. *)
Definition mixed_parser : Parser :=
  {| parse := fun _ =>
       GYield (PDict sample_task) (GYield (PStr "http://example.com/next")
         (GYield (POther "42") GStop)) |}.

(** The registry of [init_signal] with [reach_max_num] set to [b]. *)
Definition signals (quota : bool) : gmap string bool :=
  Signal.set Signal.init "reach_max_num" quota.

(** Nothing fails: the queue has a locator, the fetch answers, puts go
    through, no signal is set. *)
Definition steady_world : world := fun _ =>
  {| o_signal := signals false;
     o_get := GetItem sample_url;
     o_fetch := fun _ => FetchOk "body";
     o_output := fun _ => PutOk;
     o_input := fun _ => PutOk |}.

(** As [steady_world], with [reach_max_num] set from tick [t0] on. *)
Definition quota_world (t0 : nat) : world := fun t =>
  {| o_signal := signals (t0 <=? t)%nat;
     o_get := GetItem sample_url;
     o_fetch := fun _ => FetchOk "body";
     o_output := fun _ => PutOk;
     o_input := fun _ => PutOk |}.

(** The output queue is full before tick [t0]. *)
Definition full_until (t0 : nat) : world := fun t =>
  {| o_signal := signals false;
     o_get := GetItem sample_url;
     o_fetch := fun _ => FetchOk "body";
     o_output := fun _ => if (t <? t0)%nat then PutFull else PutOk;
     o_input := fun _ => PutOk |}.

(** The fetch raises before tick [t0]. *)
Definition failing_until (t0 : nat) : world := fun t =>
  {| o_signal := signals false;
     o_get := GetItem sample_url;
     o_fetch := fun _ => if (t <? t0)%nat then FetchRaise (Exc "ConnectionError")
                         else FetchOk "body";
     o_output := fun _ => PutOk;
     o_input := fun _ => PutOk |}.

(** The feeder has exited; queue answers come from the pool. *)
Definition drained_world : world := fun _ =>
  {| o_signal := Signal.set Signal.init "feeder_exited" true;
     o_get := GetEmpty;
     o_fetch := fun _ => FetchOk "body";
     o_output := fun _ => PutOk;
     o_input := fun _ => PutOk |}.

Definition sample_pool : pool :=
  {| in_queue := ["http://a"; "http://b"]; in_size := 5; unfinished := 2;
     out_queue := []; out_size := 5 |}.

(** A crawl of three polls: all pools alive, then the feeder dead, then
    all dead; only the parser is left with a non-empty input queue. *)
Definition sample_polls : list (stage -> bool) :=
  [fun _ => true;
   fun s => match s with feeder => false | _ => true end;
   fun _ => false].

Definition sample_empty : stage -> bool :=
  fun s => match s with parser => false | _ => true end.

Definition sample_crawl : list cevent * bool :=
  crawl (fun _ => 1%Z) None (Some [("max_retry", "3")]) None sample_polls sample_empty.

(** ** More ways to read a worker trace *)

(** The responses the session returned, in order. *)
Definition answered (tr : list event) : list response :=
  omap (fun e => match e with EvRequest _ _ (FetchOk r) => Some r | _ => None end) tr.

(** What [parse] yields for the responses of a trace, in order. *)
Definition yielded (P : Parser) (tr : list event) : list pyval :=
  flat_map (fun r => items (parse P r)) (answered tr).

(** The locators handed to [session.get], in order. *)
Definition requested (tr : list event) : list string :=
  omap (fun e => match e with EvRequest url _ _ => Some url | _ => None end) tr.

(** The items a program point still has to go through: the local [task]
    and what is left of the generator. *)
Definition pending_items (st : state) : list pyval :=
  match st with
  | SGuard _ _ x g | SPush _ _ x g => x :: items g
  | SAfter _ _ g => items g
  | _ => []
  end.

(** The local [url] at a program point. *)
Definition current_url (st : state) : option string :=
  match st with
  | SFetch url _ | SGuard url _ _ _ | SPush url _ _ _ | SAfter url _ _ => Some url
  | _ => None
  end.

Definition is_sleep (e : event) : bool :=
  match e with EvSleep _ => true | _ => false end.

Definition is_full_put (e : event) : bool :=
  match e with EvOutput _ _ PutFull | EvInput _ _ PutFull => true | _ => false end.

(** The last log line of [worker_exec] (line 118). *)
Definition is_exit_log (e : event) : bool :=
  match e with EvLog INFO MsgThreadExit => true | _ => false end.

Definition exited (st : state) : nat :=
  match st with SExited _ => 1 | _ => 0 end.

Definition crashed (st : state) : nat :=
  match st with SCrashed _ => 1 | _ => 0 end.

(** The worker is not inside the [for] loop over what [parse] returned. *)
Definition before_parse (st : state) : bool :=
  match st with SGuard _ _ _ _ | SPush _ _ _ _ | SAfter _ _ _ => false | _ => true end.

(** The worker holds no locator. *)
Definition idle (st : state) : bool :=
  match st with STop | SDequeue | SEmpty | SExited _ => true | _ => false end.

(** Ticks a program point needs at most to be through with its locator
    when every put is accepted at once, [bound] being the longest run of
    items [parse] yields. *)
Definition occupancy (bound : nat) (st : state) : nat :=
  match st with
  | SFetch _ retry => Z.to_nat (Z.max 1 retry) + 3 * bound
  | SGuard _ _ _ g => 3 + 3 * length (items g)
  | SPush _ _ _ g => 2 + 3 * length (items g)
  | SAfter _ _ g => 1 + 3 * length (items g)
  | _ => 0
  end.

(** ** Crawler: storage, session and construction *)

(** The argument of [set_storage]: an instance of [BaseStorage], a [dict]
    with string keys, or anything else. *)
Inductive storage_arg :=
| ABackend (obj : string)
| ADict (d : gmap string pyval)
| AOther (repr : string).

(** What [import_module(name)] does. *)
Inductive import_result :=
| Imported (module : string)
| ImportFails
| ImportRaises (e : exn).

(** The names the process can resolve: [getattr(storage_package, name)]
    answers an attribute or raises [AttributeError] ([None]). *)
Record resolver := {
  package_attr  : string -> option string;
  import_module : string -> import_result
}.

(** What [backend_cls] is bound to when it is called. *)
Inductive callee :=
| PackageAttr (attr : string)
| ModuleObject (module : string).

(** What [self.storage] is bound to: the instance given, or the result of
    calling [backend_cls] with the keyword arguments [kwargs]. *)
Inductive storage_value :=
| Given (obj : string)
| Constructed (c : callee) (kwargs : gmap string pyval).

Inductive storage_outcome :=
| Stored (s : storage_value)
| StorageRaises (e : exn)
| SystemExit.

Record storage_result := {
  outcome     : storage_outcome;
  arg_after   : storage_arg;          (* the caller's object after the call *)
  error_log   : option pyval          (* the name in the logged error line  *)
}.

(** [Crawler.set_storage] (lines 90-116), up to the call of line 116:
    [Stored (Constructed b kwargs)] says that [b] is called with [kwargs];
    what that call does is [call], below. *)
Definition set_storage (env : resolver) (storage : storage_arg) : storage_result :=
  match storage with
  | ABackend obj =>
      {| outcome := Stored (Given obj); arg_after := storage; error_log := None |}
  | ADict d =>
      let d1 :=
        match d !! "backend", d !! "root_dir" with
        | None, Some _ => <["backend" := PStr "FileSystem"]> d
        | _, _ => d
        end in
      match d1 !! "backend" with
      | None =>
          {| outcome := StorageRaises (Exc "KeyError");
             arg_after := ADict d1; error_log := None |}
      | Some (PStr name) =>
          match package_attr env name with
          | Some attr =>
              {| outcome := Stored (Constructed (PackageAttr attr) (delete "backend" d1));
                 arg_after := ADict d1; error_log := None |}
          | None =>
              match import_module env name with
              | Imported m =>
                  {| outcome := Stored (Constructed (ModuleObject m) (delete "backend" d1));
                     arg_after := ADict d1; error_log := None |}
              | ImportFails =>
                  {| outcome := SystemExit;
                     arg_after := ADict d1; error_log := Some (PStr name) |}
              | ImportRaises e =>
                  {| outcome := StorageRaises e;
                     arg_after := ADict d1; error_log := None |}
              end
          end
      | Some _ =>
          {| outcome := StorageRaises (Exc "TypeError");
             arg_after := ADict d1; error_log := None |}
      end
  | AOther _ =>
      {| outcome := StorageRaises (Exc "TypeError");
         arg_after := storage; error_log := None |}
  end.

(** The default of the [storage] parameter of [Crawler.__init__]. *)
Definition default_storage : gmap string pyval :=
  <["backend" := PStr "FileSystem"]> (<["root_dir" := PStr "images"]> ∅).

(** A proxy pool: the empty [ProxyPool()] or one handed in. *)
Inductive proxy_pool := FreshPool | GivenPool (name : string).

(** The argument of [set_session]. *)
Inductive headers_arg :=
| HNone
| HDict (h : dict)
| HOther (repr : string).

(** [Session(proxy_pool)] followed by [headers.update(h)]: the pool the
    session was built over and the headers it was updated with. *)
Record session := { s_pool : proxy_pool; s_headers : dict }.

Definition default_headers : dict :=
  [("User-Agent",
    "Mozilla/5.0 (Windows NT 10.0; Win64; x64) AppleWebKit/537.36 (KHTML, like Gecko) Chrome/88.0.4324.104 Safari/537.36")].

(** One pool of the pipeline as [__init__] builds it: its thread number,
    its extra keyword arguments and, after [connect], the pool whose input
    queue is its output queue. *)
Record component := {
  threads   : Z;
  extra     : dict;
  next_pool : option stage
}.

(** The attributes of a [Crawler]; [None] for one not assigned yet. *)
Record crawler := {
  c_logger     : option Z;
  c_proxy_pool : option proxy_pool;
  c_session    : option session;
  c_signal     : option (gmap string bool);
  c_storage    : option storage_value;
  c_feeder     : option component;
  c_parser     : option component;
  c_downloader : option component
}.

Definition blank : crawler :=
  {| c_logger := None; c_proxy_pool := None; c_session := None; c_signal := None;
     c_storage := None; c_feeder := None; c_parser := None; c_downloader := None |}.

(** How a method of the crawler ends. *)
Inductive ending :=
| Done (c : crawler)
| Raises (e : exn) (c : crawler)
| Exits (c : crawler).

Definition with_logger (v : Z) (c : crawler) : crawler :=
  {| c_logger := Some v; c_proxy_pool := c_proxy_pool c;
     c_session := c_session c; c_signal := c_signal c; c_storage := c_storage c;
     c_feeder := c_feeder c; c_parser := c_parser c; c_downloader := c_downloader c |}.

Definition with_proxy_pool (v : proxy_pool) (c : crawler) : crawler :=
  {| c_logger := c_logger c; c_proxy_pool := Some v;
     c_session := c_session c; c_signal := c_signal c; c_storage := c_storage c;
     c_feeder := c_feeder c; c_parser := c_parser c; c_downloader := c_downloader c |}.

Definition with_session (v : session) (c : crawler) : crawler :=
  {| c_logger := c_logger c; c_proxy_pool := c_proxy_pool c;
     c_session := Some v; c_signal := c_signal c; c_storage := c_storage c;
     c_feeder := c_feeder c; c_parser := c_parser c; c_downloader := c_downloader c |}.

Definition with_signal (v : gmap string bool) (c : crawler) : crawler :=
  {| c_logger := c_logger c; c_proxy_pool := c_proxy_pool c;
     c_session := c_session c; c_signal := Some v; c_storage := c_storage c;
     c_feeder := c_feeder c; c_parser := c_parser c; c_downloader := c_downloader c |}.

Definition with_storage (v : storage_value) (c : crawler) : crawler :=
  {| c_logger := c_logger c; c_proxy_pool := c_proxy_pool c;
     c_session := c_session c; c_signal := c_signal c; c_storage := Some v;
     c_feeder := c_feeder c; c_parser := c_parser c; c_downloader := c_downloader c |}.

Definition with_pools (f p d : option component) (c : crawler) : crawler :=
  {| c_logger := c_logger c; c_proxy_pool := c_proxy_pool c;
     c_session := c_session c; c_signal := c_signal c; c_storage := c_storage c;
     c_feeder := f; c_parser := p; c_downloader := d |}.

(** [Crawler.set_logger] (lines 73-79). *)
Definition set_logger (log_level : Z) (c : crawler) : crawler :=
  with_logger log_level c.

(** [Crawler.set_proxy_pool] (lines 118-125). *)
Definition set_proxy_pool (pool : option proxy_pool) (c : crawler) : crawler :=
  with_proxy_pool (default FreshPool pool) c.

(** [Crawler.set_session] (lines 127-146).  The type of [headers] is
    checked first; reading [self.proxy_pool] before it was ever assigned
    raises [AttributeError]. *)
Definition set_session (headers : headers_arg) (c : crawler) : ending :=
  match headers with
  | HOther _ => Raises (Exc "TypeError") c
  | HNone | HDict _ =>
      match c_proxy_pool c with
      | None => Raises (Exc "AttributeError") c
      | Some pool =>
          Done (with_session
                  {| s_pool := pool;
                     s_headers := match headers with
                                  | HDict h => h
                                  | _ => default_headers
                                  end |} c)
      end
  end.

(** [Crawler.init_signal] (lines 81-88). *)
Definition init_signal (c : crawler) : crawler := with_signal Signal.init c.

(** What calling a class does: [None] when the constructor returns, the
    exception it raises otherwise.  [call_backend] is the call of an
    attribute of the storage package with the keyword arguments left in the
    [dict]; [new_pool] the call of [feeder_cls], [parser_cls] or
    [downloader_cls] with its thread number and its extra keyword
    arguments. *)
Record classes := {
  call_backend : string -> gmap string pyval -> option exn;
  new_pool     : stage -> Z -> dict -> option exn
}.

(** [Parser.__init__(self, thread_num, signal, session)] (parser.py, line
    25) has no parameter for a further keyword argument: a call that passes
    one fails to bind its arguments. *)
Definition parser_rejects (kwargs : dict) : bool :=
  match kwargs with [] => false | _ => true end.

(** [backend_cls(...)], the last statement of [set_storage] for a [dict]
    (line 116): a class may raise from its constructor, and the module
    object that [import_module] returned is not callable. *)
Definition call (cls : classes) (b : callee) (kwargs : gmap string pyval) : option exn :=
  match b with
  | PackageAttr attr => call_backend cls attr kwargs
  | ModuleObject _ => Some (Exc "TypeError")
  end.

(** [Crawler.set_storage] on the object: [self.storage] is bound once the
    backend is there, and the error line before [sys.exit()] goes through
    [self.logger]. *)
Definition store (env : resolver) (cls : classes) (storage : storage_arg) (c : crawler)
  : ending :=
  match outcome (set_storage env storage) with
  | Stored (Given obj) => Done (with_storage (Given obj) c)
  | Stored (Constructed b kwargs) =>
      match call cls b kwargs with
      | None => Done (with_storage (Constructed b kwargs) c)
      | Some e => Raises e c
      end
  | StorageRaises e => Raises e c
  | SystemExit =>
      match c_logger c with
      | Some _ => Exits c
      | None => Raises (Exc "AttributeError") c
      end
  end.

(** A pool right after its constructor. *)
Definition new_component (thread_num : Z) (extra_args : option dict) : component :=
  {| threads := thread_num; extra := default [] extra_args; next_pool := None |}.

(** Modelled from the spec: [ThreadPool.connect(next_pool)] sets this
    pool's output target to the input queue of [next_pool] and returns
    [next_pool]. *)
Definition connect (c : component) (next : stage) : component :=
  {| threads := threads c; extra := extra c; next_pool := Some next |}.

(** Lines 62-71: the feeder and the parser are built on [self.signal] and
    [self.session], the downloader on [self.storage] as well, one
    assignment after the other, and then
    [self.feeder.connect(self.parser).connect(self.downloader)].  A
    constructor that raises leaves the pools built before it on the
    object. *)
Definition build (cls : classes) (feeder_threads parser_threads downloader_threads : Z)
    (extra_feeder_args extra_parser_args extra_downloader_args : option dict)
    (c : crawler) : ending :=
  match c_signal c, c_session c with
  | Some _, Some _ =>
      match new_pool cls feeder feeder_threads (default [] extra_feeder_args) with
      | Some e => Raises e c
      | None =>
          let f := new_component feeder_threads extra_feeder_args in
          let c1 := with_pools (Some f) (c_parser c) (c_downloader c) c in
          match new_pool cls parser parser_threads (default [] extra_parser_args) with
          | Some e => Raises e c1
          | None =>
              let p := new_component parser_threads extra_parser_args in
              let c2 := with_pools (Some f) (Some p) (c_downloader c) c in
              match c_storage c with
              | None => Raises (Exc "AttributeError") c2
              | Some _ =>
                  match new_pool cls downloader downloader_threads
                          (default [] extra_downloader_args) with
                  | Some e => Raises e c2
                  | None =>
                      let d := new_component downloader_threads extra_downloader_args in
                      Done (with_pools (Some (connect f parser))
                              (Some (connect p downloader)) (Some d) c)
                  end
              end
          end
      end
  | _, _ => Raises (Exc "AttributeError") c
  end.

(** Run [f] on the crawler a method left, unless it raised or exited. *)
Definition and_then (r : ending) (f : crawler -> ending) : ending :=
  match r with
  | Done c => f c
  | _ => r
  end.

(** [Crawler.__init__] (lines 29-71). *)
Definition init (env : resolver) (cls : classes)
    (feeder_threads parser_threads downloader_threads : Z)
    (storage : storage_arg) (log_level : Z)
    (extra_feeder_args extra_parser_args extra_downloader_args : option dict) : ending :=
  and_then (set_session HNone (set_proxy_pool None (set_logger log_level blank)))
    (fun c =>
       and_then (store env cls storage (init_signal c))
         (build cls feeder_threads parser_threads downloader_threads
                extra_feeder_args extra_parser_args extra_downloader_args)).

(** [set_storage] binds [self.storage] to [s]: the backend was given, or
    it was found and its call returned. *)
Definition binds (env : resolver) (cls : classes) (storage : storage_arg)
    (s : storage_value) : Prop :=
  outcome (set_storage env storage) = Stored s
  /\ match s with
     | Given _ => True
     | Constructed b kwargs => call cls b kwargs = None
     end.

(** The crawler as the four setters before [set_storage] leave it. *)
Definition prepared (log_level : Z) : crawler :=
  {| c_logger := Some log_level;
     c_proxy_pool := Some FreshPool;
     c_session := Some {| s_pool := FreshPool; s_headers := default_headers |};
     c_signal := Some Signal.init;
     c_storage := None;
     c_feeder := None; c_parser := None; c_downloader := None |}.

(** Classes as the package has them: [FileSystem] wants its "root_dir",
    the parser is the base [Parser], the other pools take what they are
    given. *)
Definition sample_classes : classes :=
  {| call_backend := fun attr kwargs =>
       if String.eqb attr "FileSystem"
       then match kwargs !! "root_dir" with
            | Some _ => None
            | None => Some (Exc "TypeError")
            end
       else None;
     new_pool := fun s _ kwargs =>
       match s with
       | parser => if parser_rejects kwargs then Some (Exc "TypeError") else None
       | _ => None
       end |}.

(** The signal writes of a [crawl] trace and the poll turns in it. *)
Definition is_signal_set (e : cevent) : bool :=
  match e with CSignalSet _ _ => true | _ => false end.

Fixpoint ccount (f : cevent -> bool) (tr : list cevent) : nat :=
  match tr with
  | [] => 0
  | e :: rest => (if f e then 1 else 0) + ccount f rest
  end.

Definition asks (s : stage) (e : cevent) : bool :=
  match e, s with
  | CIsAlive feeder _, feeder | CIsAlive parser _, parser
  | CIsAlive downloader _, downloader => true
  | _, _ => false
  end.

Definition is_creset (e : cevent) : bool :=
  match e with CSignalReset => true | _ => false end.

(** What [crawl] may write to the registry: one of the two exit flags,
    set to [True]. *)
Definition exit_flag_write (e : cevent) : Prop :=
  match e with
  | CSignalSet name v => v = true /\ (name = "feeder_exited" \/ name = "parser_exited")
  | _ => True
  end.

Definition is_csleep (e : cevent) : bool :=
  match e with CSleep _ => true | _ => false end.

(** A resolver that knows the backends of the storage package only. *)
Definition sample_resolver : resolver :=
  {| package_attr := fun name =>
       if String.eqb name "FileSystem" then Some "FileSystem"
       else if String.eqb name "GoogleStorage" then Some "GoogleStorage"
       else None;
     import_module := fun name =>
       if String.eqb name "mypkg.backends" then Imported "mypkg.backends"
       else ImportFails |}.

(** The queue raises an error that is not [queue.Empty] on every [get];
    the feeder has exited. *)
Definition broken_queue_world : world := fun _ =>
  {| o_signal := Signal.set Signal.init "feeder_exited" true;
     o_get := GetRaise (Exc "OSError");
     o_fetch := fun _ => FetchOk "body";
     o_output := fun _ => PutOk;
     o_input := fun _ => PutOk |}.

Definition no_retry_args : args :=
  {| queue_timeout := 2; req_timeout := 5; max_retry := 0 |}.

(** ** Items by kind *)

(** The tasks among a list of items, in order. *)
Definition dicts_of (l : list pyval) : list dict :=
  omap (fun x => match x with PDict d => Some d | _ => None end) l.

(** The locators among a list of items, in order. *)
Definition strs_of (l : list pyval) : list string :=
  omap (fun x => match x with PStr s => Some s | _ => None end) l.

(** The worker is inside the [for] loop over what [parse] returned, with
    the [task_done()] of its locator still to come. *)
Definition emitting (st : state) : nat :=
  match st with
  | SGuard _ _ _ _ | SPush _ _ _ _ | SAfter _ _ _ => 1
  | _ => 0
  end.


(** ** The pool with other threads at work *)













(** A pool whose queues have no bound. *)
Definition unbounded_pool : pool :=
  {| in_queue := [sample_url]; in_size := 0; unfinished := 1;
     out_queue := []; out_size := 0 |}.

(** * Properties *)

(** ** Running the worker *)

Section WorkerFacts.

Variable P : Parser.
Variable a : args.

Lemma worker_exec_S w t n st :
  worker_exec P a w t (S n) st =
  let r1 := worker_step P a (w t) st in
  let r2 := worker_exec P a w (S t) n r1.1 in
  (r2.1, r1.2 ++ r2.2).
Proof.
  simpl. destruct (worker_step P a (w t) st) as [st1 ev1]. cbn [fst snd].
  destruct (worker_exec P a w (S t) n st1) as [st2 ev2]. reflexivity.
Qed.

Lemma worker_exec_plus w n m : forall t st,
  worker_exec P a w t (n + m) st =
  let r1 := worker_exec P a w t n st in
  let r2 := worker_exec P a w (t + n) m r1.1 in
  (r2.1, r1.2 ++ r2.2).
Proof.
  induction n as [|n IH]; intros t st.
  - cbn [Nat.add worker_exec]. rewrite Nat.add_0_r. simpl.
    destruct (worker_exec P a w t m st); reflexivity.
  - change (S n + m) with (S (n + m)). rewrite !worker_exec_S. cbn zeta.
    rewrite IH. cbn zeta. cbn [fst snd].
    replace (t + S n) with (S t + n) by lia.
    rewrite app_assoc. reflexivity.
Qed.

Lemma terminal_step o st :
  terminal st = true -> worker_step P a o st = (st, []).
Proof. destruct st; simpl; intros H; try discriminate; reflexivity. Qed.

Lemma terminal_exec w n : forall t st,
  terminal st = true -> worker_exec P a w t n st = (st, []).
Proof.
  induction n as [|n IH]; intros t st H; [reflexivity|].
  rewrite worker_exec_S, (terminal_step _ _ H). cbn zeta. cbn [fst snd].
  rewrite (IH _ _ H). reflexivity.
Qed.

End WorkerFacts.

(** ** Items that are neither a task nor a locator *)

(** C9: an item that is neither a [dict] nor a [str] goes through the [try]
    body without any call: the pass ends in the [else: break] at once, with
    no put, no log line and no exception; with the quota signal unset the
    worker then moves on to the next item of the generator. *)
Theorem other_item_discarded P a w t url retry repr g :
  (forall o, worker_step P a o (SPush url retry (POther repr) g) = (SAfter url retry g, []))
  /\ (quota_at w t = false ->
      worker_exec P a w t 2 (SGuard url retry (POther repr) g) = (SAfter url retry g, []))
  /\ (quota_at w t = false -> quota_at w (2 + t) = false ->
      forall y rest, g = GYield y rest ->
      worker_exec P a w t 3 (SGuard url retry (POther repr) g) = (SGuard url retry y rest, [])).
Proof.
  unfold quota_at. split; [reflexivity|]. split.
  - intros H. simpl. rewrite H. reflexivity.
  - intros H0 H2 y rest ->. simpl in *. rewrite H0. simpl. rewrite H2. reflexivity.
Qed.

(** ** Backpressure *)

Lemma worker_exec_snoc P a w t n st :
  worker_exec P a w t (S n) st =
  let r1 := worker_exec P a w t n st in
  let r2 := worker_step P a (w (t + n)) r1.1 in
  (r2.1, r1.2 ++ r2.2).
Proof.
  replace (S n) with (n + 1) by lia. rewrite worker_exec_plus. cbn zeta.
  rewrite worker_exec_S. cbn zeta. cbn [worker_exec fst snd].
  rewrite app_nil_r. reflexivity.
Qed.

Lemma guard_open P a o url retry x g :
  Signal.get (o_signal o) "reach_max_num" = false ->
  worker_step P a o (SGuard url retry x g) = (SPush url retry x g, []).
Proof. intros H. simpl. rewrite H. reflexivity. Qed.

Lemma guard_closed P a o url retry x g :
  Signal.get (o_signal o) "reach_max_num" = true ->
  worker_step P a o (SGuard url retry x g) = (SAfter url retry g, []).
Proof. intros H. simpl. rewrite H. reflexivity. Qed.

Lemma push_full P a o url retry x g :
  is_task_or_locator x = true -> put_answer o x = PutFull ->
  worker_step P a o (SPush url retry x g)
  = (SGuard url retry x g, put_event x PutFull ++ [EvSleep 1]).
Proof. destruct x; simpl; try discriminate; intros _ ->; reflexivity. Qed.

Lemma push_ok P a o url retry x g :
  put_answer o x = PutOk ->
  worker_step P a o (SPush url retry x g) = (SAfter url retry g, put_event x PutOk).
Proof. destruct x; simpl; try intros ->; reflexivity. Qed.

Lemma push_not_ok P a o url retry x g :
  put_answer o x <> PutOk ->
  exists evs, worker_step P a o (SPush url retry x g) = (SGuard url retry x g, evs)
              /\ Forall (failed_put_event x url) evs.
Proof.
  destruct x as [d|s|r]; simpl; intros H; [| |congruence].
  - destruct (o_output o d) eqn:E; [congruence| |]; eexists; (split; [reflexivity|]);
      repeat constructor; simpl; auto; congruence.
  - destruct (o_input o s) eqn:E; [congruence| |]; eexists; (split; [reflexivity|]);
      repeat constructor; simpl; auto; congruence.
Qed.

Lemma backpressure_full P a w url retry x g :
  is_task_or_locator x = true ->
  forall n t,
    (forall k, k < n ->
       quota_at w (t + 2 * k) = false /\ put_answer (w (t + 2 * k + 1)) x = PutFull) ->
    worker_exec P a w t (2 * n) (SGuard url retry x g)
    = (SGuard url retry x g, backpressure x n).
Proof.
  intros Hx. induction n as [|n IH]; intros t H; [reflexivity|].
  replace (2 * S n) with (S (S (2 * n))) by lia.
  destruct (H 0 ltac:(lia)) as [Hq Hp].
  rewrite Nat.mul_0_r, Nat.add_0_r in Hq. rewrite Nat.mul_0_r, Nat.add_0_r in Hp.
  rewrite worker_exec_S, (guard_open _ _ _ _ _ _ _ Hq). cbn zeta. cbn [fst snd].
  replace (t + 1) with (S t) in Hp by lia.
  rewrite worker_exec_S, (push_full _ _ _ _ _ _ _ Hx Hp). cbn zeta. cbn [fst snd].
  rewrite IH.
  - cbn [fst snd backpressure app]. rewrite <- app_assoc. reflexivity.
  - intros k Hk. destruct (H (S k) ltac:(lia)) as [Hq' Hp'].
    replace (S (S t) + 2 * k) with (t + 2 * S k) by lia. split; assumption.
Qed.

Lemma backpressure_leaves P a w url retry x g t :
  forall n st' tr,
    worker_exec P a w t n (SGuard url retry x g) = (st', tr) ->
    ((st' = SGuard url retry x g \/ st' = SPush url retry x g)
     /\ Forall (failed_put_event x url) tr)
    \/ exists k tr_k,
         k < n /\ Forall (failed_put_event x url) tr_k /\
         ((worker_exec P a w t k (SGuard url retry x g) = (SGuard url retry x g, tr_k)
           /\ quota_at w (t + k) = true
           /\ worker_exec P a w t (S k) (SGuard url retry x g) = (SAfter url retry g, tr_k))
          \/
          (worker_exec P a w t k (SGuard url retry x g) = (SPush url retry x g, tr_k)
           /\ put_answer (w (t + k)) x = PutOk
           /\ worker_exec P a w t (S k) (SGuard url retry x g)
              = (SAfter url retry g, tr_k ++ put_event x PutOk))).
Proof.
  induction n as [|n IH]; intros st' tr H.
  - simpl in H. injection H as <- <-. left. split; [left; reflexivity|constructor].
  - rewrite worker_exec_snoc in H. cbn zeta in H.
    destruct (worker_exec P a w t n (SGuard url retry x g)) as [st1 tr1] eqn:E1.
    cbn [fst snd] in H.
    destruct (IH _ _ eq_refl) as [[Hst Htr]|(k & tr_k & Hk & Hrest)].
    2:{ right. exists k, tr_k. split; [lia|exact Hrest]. }
    destruct Hst as [-> | ->].
    + destruct (quota_at w (t + n)) eqn:Hq; unfold quota_at in Hq.
      * right. exists n, tr1. split; [lia|]. split; [exact Htr|]. left.
        split; [exact E1|]. split; [exact Hq|].
        rewrite worker_exec_snoc, E1. cbn zeta. cbn [fst snd].
        rewrite (guard_closed _ _ _ _ _ _ _ Hq). cbn [fst snd].
        rewrite app_nil_r. reflexivity.
      * rewrite (guard_open _ _ _ _ _ _ _ Hq) in H. cbn [fst snd] in H.
        injection H as <- <-. left. rewrite app_nil_r. split; [right; reflexivity|exact Htr].
    + destruct (put_answer (w (t + n)) x) eqn:Hp.
      * right. exists n, tr1. split; [lia|]. split; [exact Htr|]. right.
        split; [exact E1|]. split; [exact Hp|].
        rewrite worker_exec_snoc, E1. cbn zeta. cbn [fst snd].
        rewrite (push_ok _ _ _ _ _ _ _ Hp). reflexivity.
      * destruct (push_not_ok P a (w (t + n)) url retry x g) as (evs & Hs & Hf);
          [congruence|].
        rewrite Hs in H. cbn [fst snd] in H. injection H as <- <-.
        left. split; [left; reflexivity|]. apply Forall_app; split; assumption.
      * destruct (push_not_ok P a (w (t + n)) url retry x g) as (evs & Hs & Hf);
          [congruence|].
        rewrite Hs in H. cbn [fst snd] in H. injection H as <- <-.
        left. split; [left; reflexivity|]. apply Forall_app; split; assumption.
Qed.

(** C4: a put that meets a full queue does not lose its item.  The worker
    sleeps one second and puts the same item again, as many times as the
    queue stays full, with the retry counter of the fetch untouched; it
    leaves the emission loop of that item only at a guard that reads the
    quota signal as set, or right after a put that went through. *)
Theorem full_queue_never_drops P a w url retry x g :
  is_task_or_locator x = true ->
  (forall o, put_answer o x = PutFull ->
     worker_step P a o (SPush url retry x g)
     = (SGuard url retry x g, put_event x PutFull ++ [EvSleep 1]))
  /\ (forall n t,
        (forall k, k < n ->
           quota_at w (t + 2 * k) = false /\ put_answer (w (t + 2 * k + 1)) x = PutFull) ->
        worker_exec P a w t (2 * n) (SGuard url retry x g)
        = (SGuard url retry x g, backpressure x n))
  /\ (forall t n st' tr,
        worker_exec P a w t n (SGuard url retry x g) = (st', tr) ->
        ((st' = SGuard url retry x g \/ st' = SPush url retry x g)
         /\ Forall (failed_put_event x url) tr)
        \/ exists k tr_k,
             k < n /\ Forall (failed_put_event x url) tr_k /\
             ((worker_exec P a w t k (SGuard url retry x g) = (SGuard url retry x g, tr_k)
               /\ quota_at w (t + k) = true
               /\ worker_exec P a w t (S k) (SGuard url retry x g)
                  = (SAfter url retry g, tr_k))
              \/
              (worker_exec P a w t k (SGuard url retry x g) = (SPush url retry x g, tr_k)
               /\ put_answer (w (t + k)) x = PutOk
               /\ worker_exec P a w t (S k) (SGuard url retry x g)
                  = (SAfter url retry g, tr_k ++ put_event x PutOk)))).
Proof.
  intros Hx. split; [|split].
  - intros o Ho. apply push_full; assumption.
  - apply backpressure_full; assumption.
  - intros t n st' tr. apply backpressure_leaves.
Qed.

(** ** The quota signal *)

Lemma signal_get_set s name v : Signal.get (Signal.set s name v) name = v.
Proof. unfold Signal.get, Signal.set. rewrite lookup_insert_eq. reflexivity. Qed.

Lemma signal_get_set_ne s name name' v :
  name <> name' -> Signal.get (Signal.set s name v) name' = Signal.get s name'.
Proof.
  intros H. unfold Signal.get, Signal.set. rewrite lookup_insert_ne by exact H.
  reflexivity.
Qed.

Lemma quota_world_set t0 : quota_set_from (quota_world t0) t0.
Proof.
  intros t Ht. unfold quota_at, quota_world, signals. cbn [o_signal].
  rewrite signal_get_set. apply Nat.leb_le. exact Ht.
Qed.

Section QuotaSet.

Variable P : Parser.
Variable a : args.

(** Under a set signal no step starts a put, and only a put in flight
    can still deliver. *)
Lemma quota_step o st :
  Signal.get (o_signal o) "reach_max_num" = true ->
  in_flight (worker_step P a o st).1 = false
  /\ (in_flight st = false -> emitted (worker_step P a o st).2 = [])
  /\ length (emitted (worker_step P a o st).2) <= 1.
Proof.
  intros Hq. destruct st; simpl; rewrite ?Hq; unfold retry_loop, next_item;
    repeat case_match; simplify_eq; simpl; auto;
    (split; [reflexivity|split; [discriminate|lia]]).
Qed.

Lemma quota_no_emission w n : forall t st,
  quota_set_from w t -> in_flight st = false ->
  emitted (worker_exec P a w t n st).2 = [].
Proof.
  induction n as [|n IH]; intros t st Hq Hf; [reflexivity|].
  rewrite worker_exec_S. cbn zeta. cbn [snd]. unfold emitted. rewrite omap_app.
  destruct (quota_step (w t) st (Hq t (le_n _))) as (Hf' & He & _).
  fold (emitted (worker_step P a (w t) st).2). rewrite (He Hf). simpl.
  apply IH; [|exact Hf']. intros t' Ht'. apply Hq. lia.
Qed.

Lemma quota_one_emission w n t st :
  quota_set_from w t -> length (emitted (worker_exec P a w t n st).2) <= 1.
Proof.
  intros Hq. destruct n as [|n]; [simpl; lia|].
  rewrite worker_exec_S. cbn zeta. cbn [snd]. unfold emitted. rewrite omap_app.
  destruct (quota_step (w t) st (Hq t (le_n _))) as (Hf' & _ & Hl).
  fold (emitted (worker_step P a (w t) st).2).
  fold (emitted (worker_exec P a w (S t) n (worker_step P a (w t) st).1).2).
  rewrite quota_no_emission; [rewrite app_nil_r; exact Hl| |exact Hf'].
  intros t' Ht'. apply Hq. lia.
Qed.

Lemma quota_step_bound o st :
  Signal.get (o_signal o) "reach_max_num" = true ->
  terminal st = false ->
  quota_bound a (worker_step P a o st).1 < quota_bound a st.
Proof.
  intros Hq Ht. destruct st; simpl in *; rewrite ?Hq; try discriminate;
    unfold retry_loop, next_item; repeat case_match; simplify_eq; simpl; try lia.
Qed.

Lemma quota_terminates w n : forall t st,
  quota_set_from w t -> quota_bound a st <= n ->
  terminal (worker_exec P a w t n st).1 = true.
Proof.
  induction n as [|n IH]; intros t st Hq Hb.
  - simpl. destruct st; simpl in *; try lia; reflexivity.
  - destruct (terminal st) eqn:Ht.
    + rewrite terminal_exec by exact Ht. exact Ht.
    + rewrite worker_exec_S. cbn zeta. cbn [fst]. apply IH.
      * intros t' Ht'. apply Hq. lia.
      * pose proof (quota_step_bound (w t) st (Hq t (le_n _)) Ht). lia.
Qed.

End QuotaSet.

(** C1, as the code has it: once every read of "reach_max_num" answers
    true, the worker starts no put, so nothing is emitted any more apart
    from a put that had passed its guard (line 95) before the signal was
    set, which may still deliver its one item.  The guard skips the pending
    item, the check after the emission loop (line 112) leaves the [for]
    loop with the rest of the generator unread, the check at the top of the
    loop ends the worker with a quota exit, and the worker has stopped
    after at most [quota_bound] ticks. *)
Theorem quota_stops_emission P a w t0 st :
  quota_set_from w t0 ->
  (forall n, in_flight st = false -> emitted (trace (worker_exec P a w t0 n st)) = [])
  /\ (forall n, length (emitted (trace (worker_exec P a w t0 n st))) <= 1)
  /\ (forall t url retry x g, t0 <= t ->
        worker_step P a (w t) (SGuard url retry x g) = (SAfter url retry g, []))
  /\ (forall t url retry g, t0 <= t ->
        worker_step P a (w t) (SAfter url retry g) = (STop, [EvTaskDone]))
  /\ (forall t, t0 <= t ->
        worker_step P a (w t) STop
        = (SExited QuotaExit, [EvLog INFO MsgQuotaReached; EvLog INFO MsgThreadExit]))
  /\ (forall n, quota_bound a st <= n ->
        terminal (final_state (worker_exec P a w t0 n st)) = true).
Proof.
  intros Hq. unfold trace, final_state. repeat split.
  - intros n Hf. apply quota_no_emission; assumption.
  - intros n. apply quota_one_emission; assumption.
  - intros t url retry x g Ht. apply guard_closed. apply (Hq t Ht).
  - intros t url retry g Ht. simpl. pose proof (Hq t Ht) as H. unfold quota_at in H.
    rewrite H. reflexivity.
  - intros t Ht. simpl. pose proof (Hq t Ht) as H. unfold quota_at in H.
    rewrite H. reflexivity.
  - intros n Hn. apply quota_terminates; assumption.
Qed.

(** The signal is set while a put is under way (the guard of line 95 was
    read at tick 3, the signal is set from tick 4 on): the task is put on
    the output queue at tick 4 all the same. *)
Lemma quota_race_emits :
  quota_set_from (quota_world 4) 4
  /\ worker_exec one_task_parser default_args (quota_world 4) 0 4 STop
     = (SPush sample_url 3 (PDict sample_task) GStop,
        [EvGet 2 (GetItem sample_url); EvLog DEBUG (MsgStartFetch sample_url);
         EvRequest sample_url 5 (FetchOk "body"); EvLog INFO (MsgParsing sample_url);
         EvParse "body"])
  /\ emitted (trace (worker_exec one_task_parser default_args (quota_world 4) 4 1
                       (SPush sample_url 3 (PDict sample_task) GStop)))
     = [PDict sample_task].
Proof.
  split; [apply quota_world_set|]. split; vm_compute; reflexivity.
Qed.


(** ** Failures inside the loop *)


Section Failures.

Variable P : Parser.
Variable a : args.



Hypothesis parse_total : forall r, raises (parse P r) = false.

Lemma step_safe o st : safe st = true -> safe (worker_step P a o st).1 = true.
Proof.
  destruct st; simpl; intros Hs; try discriminate; unfold retry_loop, next_item;
    repeat case_match; simplify_eq; simpl in *; auto.
  all: try match goal with
       | H : parse P ?r = _ |- _ =>
           let H' := fresh in pose proof (parse_total r) as H'; rewrite H in H';
           simpl in H'; rewrite ?H'; auto; try discriminate
       end.
Qed.

Lemma exec_safe w n : forall t st,
  safe st = true -> safe (worker_exec P a w t n st).1 = true.
Proof.
  induction n as [|n IH]; intros t st Hs; [exact Hs|].
  rewrite worker_exec_S. cbn zeta. cbn [fst]. apply IH, step_safe, Hs.
Qed.

End Failures.




(** ** The retry budget of a fetch *)

Lemma count_app f tr1 tr2 : count f (tr1 ++ tr2) = count f tr1 + count f tr2.
Proof. induction tr1 as [|e tr1 IH]; simpl; [reflexivity|]. rewrite IH. lia. Qed.

Lemma emitted_app tr1 tr2 : emitted (tr1 ++ tr2) = emitted tr1 ++ emitted tr2.
Proof. apply omap_app. Qed.

Section Retry.

Variable P : Parser.
Variable a : args.
Variable w : world.

(** Without a new [get], the requests stay within the budget. *)
Lemma step_budget o st :
  count is_get (worker_step P a o st).2 = 0 ->
  (Z.of_nat (count is_request (worker_step P a o st).2)
   + budget (worker_step P a o st).1 <= budget st)%Z.
Proof.
  destruct st; simpl; unfold retry_loop, next_item;
    repeat case_match; simplify_eq; cbn; intros Hget; try lia; try discriminate.
  all: match goal with
       | H : (0 <? _)%Z = true |- _ => apply Z.ltb_lt in H
       | H : (0 <? _)%Z = false |- _ => apply Z.ltb_ge in H
       end; lia.
Qed.

Lemma exec_budget n : forall t st,
  count is_get (worker_exec P a w t n st).2 = 0 ->
  (Z.of_nat (count is_request (worker_exec P a w t n st).2) <= budget st)%Z.
Proof.
  induction n as [|n IH]; intros t st.
  - simpl. intros _. destruct st; simpl; lia.
  - rewrite worker_exec_S. cbn zeta. cbn [snd]. rewrite !count_app. intros H.
    assert (H1 : count is_get (worker_step P a (w t) st).2 = 0) by lia.
    pose proof (step_budget (w t) st H1).
    pose proof (IH (S t) (worker_step P a (w t) st).1 ltac:(lia)). lia.
Qed.

Lemma attempts_bounded t n :
  count is_get (worker_exec P a w t n SDequeue).2 <= 1 ->
  (Z.of_nat (count is_request (worker_exec P a w t n SDequeue).2)
   <= Z.max 0 (max_retry a))%Z.
Proof.
  destruct n as [|n]; [simpl; lia|].
  rewrite worker_exec_S. cbn zeta. cbn [snd]. rewrite !count_app. intros H.
  assert (Hg : count is_get (worker_step P a (w t) SDequeue).2 = 1)
    by (simpl; destruct (o_get (w t)); reflexivity).
  pose proof (exec_budget n (S t) (worker_step P a (w t) SDequeue).1 ltac:(lia)) as Hb.
  revert Hb. simpl. unfold retry_loop.
  destruct (o_get (w t)); [destruct (0 <? max_retry a)%Z eqn:E| |]; cbn; intros Hb;
    lia.
Qed.

(** [m] failed attempts in a row, with budget to spare. *)
Lemma failed_attempts url m : forall t retry,
  (forall k, k < m -> exists e, o_fetch (w (t + k)) url = FetchRaise e) ->
  (Z.of_nat m < retry)%Z ->
  exists tr,
    worker_exec P a w t m (SFetch url retry) = (SFetch url (retry - Z.of_nat m), tr)
    /\ emitted tr = [] /\ count is_request tr = m
    /\ count is_task_done tr = 0 /\ count is_put tr = 0.
Proof.
  induction m as [|m IH]; intros t retry Hf Hr.
  - exists []. simpl. rewrite Z.sub_0_r. auto.
  - destruct (Hf 0 ltac:(lia)) as [e He]. rewrite Nat.add_0_r in He.
    destruct (IH (S t) (retry - 1)%Z) as (tr & Hrun & H1 & H2 & H3 & H4).
    + intros k Hk. destruct (Hf (S k) ltac:(lia)) as [e' He'].
      exists e'. replace (S t + k) with (t + S k) by lia. exact He'.
    + lia.
    + eexists. rewrite worker_exec_S. cbn zeta. simpl worker_step. rewrite He.
      unfold retry_loop. replace (0 <? retry - 1)%Z with true
        by (symmetry; apply Z.ltb_lt; lia).
      cbn [fst snd]. rewrite Hrun. cbn [fst snd].
      split; [f_equal; f_equal; lia|].
      rewrite emitted_app, !count_app, H1, H2, H3, H4. cbn. auto.
Qed.

(** With the signal unset and the queues accepting, every item of the
    generator is put, then [task_done()] is called, then the worker is
    back at the top of its loop. *)
Lemma emit_all url retry g : forall t,
  raises g = false ->
  (forall t', t <= t' -> calm (w t')) ->
  exists tr,
    worker_exec P a w t (3 * length (items g)) (next_item url retry g).1 = (STop, tr)
    /\ emitted ((next_item url retry g).2 ++ tr) = List.filter is_task_or_locator (items g)
    /\ count is_request ((next_item url retry g).2 ++ tr) = 0
    /\ count is_task_done ((next_item url retry g).2 ++ tr) = 1.
Proof.
  induction g as [x g IH| |e]; intros t Hr Hc; [| |discriminate].
  - simpl in Hr. destruct (IH (3 + t) Hr) as (tr & Hrun & H1 & H2 & H3).
    { intros t' Ht'. apply Hc. lia. }
    destruct (Hc t (le_n _)) as [Hq0 _].
    destruct (Hc (S t) ltac:(lia)) as [_ Hp1].
    destruct (Hc (S (S t)) ltac:(lia)) as [Hq2 _].
    cbn [items length next_item fst snd app].
    replace (3 * S (length (items g))) with (S (S (S (3 * length (items g))))) by lia.
    rewrite worker_exec_S, (guard_open _ _ _ _ _ _ _ Hq0). cbn zeta. cbn [fst snd].
    rewrite worker_exec_S, (push_ok _ _ _ _ _ _ _ (Hp1 x)). cbn zeta. cbn [fst snd].
    rewrite worker_exec_S. cbn zeta. simpl worker_step. rewrite Hq2.
    change (S (S (S t))) with (3 + t). rewrite Hrun. cbn [fst snd app].
    eexists. split; [reflexivity|].
    rewrite emitted_app, H1, !(count_app _ (put_event x PutOk)), H2, H3.
    destruct x; cbn; auto.
  - exists []. simpl. auto.
Qed.

End Retry.

(** C3: a dequeued locator is fetched at most [max_retry] times.  When
    every one of [max_retry] attempts raises, the locator is given up with
    nothing put on any queue and no [task_done()], and the worker is back at
    the top of its loop, ready for the next locator.  When the first
    [max_retry - 1] attempts raise and the last one answers, the tasks and
    locators the callback yields for that response are put, in order,
    while the quota signal is unset and the queues accept them, and
    [task_done()] follows. *)
Theorem retry_budget P a w t url :
  (forall n, count is_get (trace (worker_exec P a w t n SDequeue)) <= 1 ->
     (Z.of_nat (count is_request (trace (worker_exec P a w t n SDequeue)))
      <= Z.max 0 (max_retry a))%Z)
  /\ (forall m, max_retry a = Z.of_nat (S m) ->
        o_get (w t) = GetItem url ->
        (forall k, k < S m -> exists e, o_fetch (w (1 + t + k)) url = FetchRaise e) ->
        exists tr,
          worker_exec P a w t (2 + m) SDequeue = (STop, tr)
          /\ emitted tr = [] /\ count is_put tr = 0
          /\ count is_request tr = S m /\ count is_task_done tr = 0)
  /\ (forall m r, max_retry a = Z.of_nat (S m) ->
        o_get (w t) = GetItem url ->
        (forall k, k < m -> exists e, o_fetch (w (1 + t + k)) url = FetchRaise e) ->
        o_fetch (w (1 + t + m)) url = FetchOk r ->
        raises (parse P r) = false ->
        (forall t', 1 + t + m < t' -> calm (w t')) ->
        exists tr,
          worker_exec P a w t (2 + m + 3 * length (items (parse P r))) SDequeue = (STop, tr)
          /\ emitted tr = List.filter is_task_or_locator (items (parse P r))
          /\ count is_request tr = S m /\ count is_task_done tr = 1).
Proof.
  unfold trace. split; [|split].
  - intros n. apply attempts_bounded.
  - intros m Hm Hg Hf.
    destruct (failed_attempts P a w url m (1 + t) (max_retry a)) as (tr & Hrun & H1 & H2 & H3 & H4).
    { intros k Hk. apply Hf. lia. }
    { lia. }
    destruct (Hf m ltac:(lia)) as [e He].
    replace (2 + m) with (S (m + 1)) by lia.
    rewrite worker_exec_S. cbn zeta. unfold worker_step. rewrite Hg.
    unfold retry_loop. replace (0 <? max_retry a)%Z with true
      by (symmetry; apply Z.ltb_lt; lia).
    cbn [fst snd]. rewrite worker_exec_plus. cbn zeta.
    change (S t) with (1 + t). rewrite Hrun. cbn [fst snd].
    rewrite worker_exec_S. cbn zeta. unfold worker_step. rewrite He.
    unfold retry_loop. replace (0 <? max_retry a - Z.of_nat m - 1)%Z with false
      by (symmetry; apply Z.ltb_ge; lia).
    cbn [fst snd worker_exec]. eexists. split; [reflexivity|].
    rewrite !emitted_app, !count_app, H1, H2, H3, H4. cbn. repeat split; lia.
  - intros m r Hm Hg Hf Hok Hr Hc.
    destruct (failed_attempts P a w url m (1 + t) (max_retry a)) as (tr & Hrun & H1 & H2 & H3 & H4).
    { exact Hf. }
    { lia. }
    destruct (emit_all P a w url (max_retry a - Z.of_nat m)%Z (parse P r) (2 + t + m) Hr)
      as (tr' & Hrun' & E1 & E2 & E3).
    { intros t' Ht'. apply Hc. lia. }
    replace (2 + m + 3 * length (items (parse P r)))
      with (S (m + S (3 * length (items (parse P r))))) by lia.
    rewrite worker_exec_S. cbn zeta. unfold worker_step. rewrite Hg.
    unfold retry_loop. replace (0 <? max_retry a)%Z with true
      by (symmetry; apply Z.ltb_lt; lia).
    cbn [fst snd]. rewrite worker_exec_plus. cbn zeta.
    change (S t) with (1 + t). rewrite Hrun. cbn [fst snd].
    rewrite worker_exec_S. cbn zeta. unfold worker_step. rewrite Hok.
    destruct (next_item url (max_retry a - Z.of_nat m)%Z (parse P r)) as [st0 ev0] eqn:En.
    cbn [fst snd] in *. replace (S (1 + t + m)) with (2 + t + m) by lia.
    rewrite Hrun'. cbn [fst snd]. eexists. split; [reflexivity|].
    rewrite !emitted_app, !count_app in *. rewrite H1, H2, H3.
    cbn. repeat split; [exact E1|lia|lia].
Qed.

(** ** Leaving when the source is exhausted *)

Lemma dequeued_app tr1 tr2 : dequeued (tr1 ++ tr2) = dequeued tr1 ++ dequeued tr2.
Proof. apply omap_app. Qed.

Lemma requeued_app tr1 tr2 : requeued (tr1 ++ tr2) = requeued tr1 ++ requeued tr2.
Proof. apply omap_app. Qed.

Lemma started_app tr1 tr2 : started (tr1 ++ tr2) = started tr1 ++ started tr2.
Proof. apply omap_app. Qed.

Lemma answered_app tr1 tr2 : answered (tr1 ++ tr2) = answered tr1 ++ answered tr2.
Proof. apply omap_app. Qed.

Lemma yielded_app P tr1 tr2 : yielded P (tr1 ++ tr2) = yielded P tr1 ++ yielded P tr2.
Proof. unfold yielded. rewrite answered_app. apply flat_map_app. Qed.

Lemma requested_app tr1 tr2 : requested (tr1 ++ tr2) = requested tr1 ++ requested tr2.
Proof. apply omap_app. Qed.

Lemma dicts_of_app l1 l2 : dicts_of (l1 ++ l2) = dicts_of l1 ++ dicts_of l2.
Proof. apply omap_app. Qed.

Lemma strs_of_app l1 l2 : strs_of (l1 ++ l2) = strs_of l1 ++ strs_of l2.
Proof. apply omap_app. Qed.

Lemma dicts_of_filter l : dicts_of (List.filter is_task_or_locator l) = dicts_of l.
Proof.
  induction l as [|[d|s|r] l IH]; [reflexivity|..]; unfold dicts_of in *; cbn; congruence.
Qed.

Lemma strs_of_filter l : strs_of (List.filter is_task_or_locator l) = strs_of l.
Proof.
  induction l as [|[d|s|r] l IH]; [reflexivity|..]; unfold strs_of in *; cbn; congruence.
Qed.

(** What reached the output queue is the tasks among what was put, and
    what went back on the input queue the locators. *)
Lemma forwarded_emitted tr : forwarded tr = dicts_of (emitted tr).
Proof.
  induction tr as [|e tr IH]; [reflexivity|].
  unfold forwarded, requeued, dicts_of, strs_of, emitted in *.
  destruct e as [| | | |d0 t0 []|s0 t0 []| |]; cbn; congruence.
Qed.

Lemma requeued_emitted tr : requeued tr = strs_of (emitted tr).
Proof.
  induction tr as [|e tr IH]; [reflexivity|].
  unfold forwarded, requeued, dicts_of, strs_of, emitted in *.
  destruct e as [| | | |d0 t0 []|s0 t0 []| |]; cbn; congruence.
Qed.

Section Delivery.

Variable P : Parser.
Variable a : args.
Variable w : world.

(** While the quota signal is unset no item is lost: what [parse] yields
    is put or stays pending at the worker. *)
Lemma step_delivered o st :
  Signal.get (o_signal o) "reach_max_num" = false ->
  let r := worker_step P a o st in
  List.filter is_task_or_locator (pending_items st)
  ++ List.filter is_task_or_locator (yielded P r.2)
  = emitted r.2 ++ List.filter is_task_or_locator (pending_items r.1).
Proof.
  intros Hq.
  destruct st as [| | |url retry|url retry x g|url retry x g|url retry g|r|e];
    cbn zeta; unfold worker_step, retry_loop, next_item; rewrite ?Hq.
  - reflexivity.
  - repeat case_match; reflexivity.
  - case_match; reflexivity.
  - destruct (o_fetch o url) as [r|e]; [|case_match; reflexivity].
    destruct (parse P r) as [x g| |e] eqn:Ep; unfold yielded; cbn; rewrite Ep; cbn;
      rewrite ?app_nil_r; reflexivity.
  - cbn. rewrite app_nil_r. reflexivity.
  - destruct x as [d|s|repr]; repeat case_match; cbn; rewrite ?app_nil_r; reflexivity.
  - destruct g; cbn; rewrite ?app_nil_r; reflexivity.
  - reflexivity.
  - reflexivity.
Qed.

Lemma exec_delivered n : forall t st,
  (forall t', t <= t' -> quota_at w t' = false) ->
  let r := worker_exec P a w t n st in
  List.filter is_task_or_locator (pending_items st)
  ++ List.filter is_task_or_locator (yielded P r.2)
  = emitted r.2 ++ List.filter is_task_or_locator (pending_items r.1).
Proof.
  induction n as [|n IH]; intros t st Hq.
  - cbn. rewrite app_nil_r. reflexivity.
  - cbn zeta. rewrite worker_exec_S. cbn zeta. cbn [fst snd].
    pose proof (step_delivered (w t) st (Hq t (le_n _))) as H1.
    assert (Hq' : forall t', S t <= t' -> quota_at w t' = false)
      by (intros t' Ht'; apply Hq; lia).
    pose proof (IH (S t) (worker_step P a (w t) st).1 Hq') as H2. cbn zeta in *.
    rewrite emitted_app, yielded_app, List.filter_app, app_assoc, H1, <- !app_assoc, H2.
    reflexivity.
Qed.

(** The same, queue by queue. *)
Lemma exec_delivered_queues n t st :
  (forall t', t <= t' -> quota_at w t' = false) ->
  let r := worker_exec P a w t n st in
  dicts_of (pending_items st) ++ dicts_of (yielded P r.2)
  = forwarded r.2 ++ dicts_of (pending_items r.1)
  /\ strs_of (pending_items st) ++ strs_of (yielded P r.2)
     = requeued r.2 ++ strs_of (pending_items r.1).
Proof.
  intros Hq. pose proof (exec_delivered n t st Hq) as H. cbn zeta in *. split.
  - apply (f_equal dicts_of) in H.
    rewrite !dicts_of_app, !dicts_of_filter, <- forwarded_emitted in H. exact H.
  - apply (f_equal strs_of) in H.
    rewrite !strs_of_app, !strs_of_filter, <- requeued_emitted in H. exact H.
Qed.



(** One locator, fetched at the first attempt, on queues that accept:
    its tasks and locators are all put, each on its queue. *)
Lemma deliver_page t url r :
  o_get (w t) = GetItem url ->
  (0 < max_retry a)%Z ->
  o_fetch (w (1 + t)) url = FetchOk r ->
  raises (parse P r) = false ->
  (forall t', 1 + t < t' -> calm (w t')) ->
  exists tr,
    worker_exec P a w t (2 + 3 * length (items (parse P r))) SDequeue = (STop, tr)
    /\ forwarded tr = dicts_of (items (parse P r))
    /\ requeued tr = strs_of (items (parse P r)).
Proof.
  intros Hg Hm Hok Hr Hc.
  destruct (emit_all P a w url (max_retry a) (parse P r) (2 + t) Hr)
    as (tr' & Hrun' & E1 & _).
  { intros t' Ht'. apply Hc. lia. }
  change (2 + 3 * length (items (parse P r)))
    with (S (S (3 * length (items (parse P r))))).
  rewrite worker_exec_S. cbn zeta. unfold worker_step. rewrite Hg.
  unfold retry_loop. replace (0 <? max_retry a)%Z with true
    by (symmetry; apply Z.ltb_lt; lia).
  cbn [fst snd]. rewrite worker_exec_S. cbn zeta. unfold worker_step.
  change (S t) with (1 + t). rewrite Hok.
  destruct (next_item url (max_retry a) (parse P r)) as [st0 ev0] eqn:En.
  cbn [fst snd] in *. change (S (1 + t)) with (2 + t). rewrite Hrun'. cbn [fst snd].
  eexists. split; [reflexivity|].
  rewrite forwarded_emitted, requeued_emitted.
  change (emitted ([EvGet (queue_timeout a) (GetItem url); EvLog DEBUG (MsgStartFetch url)] ++
             ([EvRequest url (req_timeout a) (FetchOk r); EvLog INFO (MsgParsing url);
               EvParse r] ++ ev0) ++ tr'))
    with (emitted (ev0 ++ tr')).
  rewrite E1, dicts_of_filter, strs_of_filter. auto.
Qed.

End Delivery.

Section Exhaustion.

Variable P : Parser.
Variable a : args.
Variable w : world.




Lemma pool_exec_S t n c :
  pool_exec P a w t (S n) c =
  let r1 := pool_step P a (w t) c in
  let r2 := pool_exec P a w (S t) n r1.1 in
  (r2.1, r1.2 ++ r2.2).
Proof.
  simpl. destruct (pool_step P a (w t) c) as [c1 ev1]. cbn [fst snd].
  destruct (pool_exec P a w (S t) n c1) as [c2 ev2]. reflexivity.
Qed.

(** What one step takes from and adds to the input queue. *)
Lemma pool_step_queue o st p :
  empty_seen st p ->
  let r := pool_step P a o (st, p) in
  in_queue p ++ requeued r.2 = dequeued r.2 ++ in_queue r.1.2
  /\ started r.2 = dequeued r.2
  /\ empty_seen r.1.1 r.1.2.
Proof.
  unfold pool_step, pool_obs, pool_get, pool_output, pool_input.
  destruct st; cbn [fst snd worker_step o_signal o_get o_fetch o_output o_input];
    unfold retry_loop, next_item; intros Hs;
    repeat case_match; simplify_eq; cbn in *;
    rewrite ?app_nil_r; try rewrite Hs; auto;
    match goal with H : in_queue _ = _ |- _ => rewrite H end; auto.
Qed.

Lemma pool_exec_queue n : forall t st p,
  empty_seen st p ->
  let r := pool_exec P a w t n (st, p) in
  in_queue p ++ requeued r.2 = dequeued r.2 ++ in_queue r.1.2
  /\ started r.2 = dequeued r.2
  /\ empty_seen r.1.1 r.1.2.
Proof.
  induction n as [|n IH]; intros t st p Hs.
  - simpl. rewrite app_nil_r. auto.
  - cbn zeta. rewrite pool_exec_S. cbn zeta. cbn [fst snd].
    destruct (pool_step_queue (w t) st p Hs) as (H1 & H2 & H3). cbn zeta in *.
    destruct (pool_step P a (w t) (st, p)) as [[st1 p1] ev1]. cbn [fst snd] in *.
    destruct (IH (S t) st1 p1 H3) as (I1 & I2 & I3). cbn zeta in *.
    destruct (pool_exec P a w (S t) n (st1, p1)) as [[st2 p2] ev2]. cbn [fst snd] in *.
    rewrite requeued_app, dequeued_app, started_app. repeat split; [|congruence|exact I3].
    rewrite app_assoc, H1, <- app_assoc, I1, app_assoc. reflexivity.
Qed.

Lemma pool_exec_snoc n : forall t c,
  pool_exec P a w t (S n) c =
  let r1 := pool_exec P a w t n c in
  let r2 := pool_step P a (w (t + n)) r1.1 in
  (r2.1, r1.2 ++ r2.2).
Proof.
  induction n as [|n IH]; intros t c.
  - rewrite pool_exec_S. cbn zeta. cbn [pool_exec fst snd].
    rewrite Nat.add_0_r, app_nil_r. reflexivity.
  - rewrite pool_exec_S. cbn zeta. rewrite IH. cbn zeta. cbn [fst snd].
    rewrite (pool_exec_S t n c). cbn zeta. cbn [fst snd].
    replace (S t + n) with (t + S n) by lia. rewrite app_assoc. reflexivity.
Qed.

(** A run on the pool is a run of the worker in the world whose queue
    answers are those of the pool at each tick. *)
Lemma pool_exec_worker st p t n :
  let w' := fun t' => pool_obs (w t') (pool_exec P a w t (t' - t) (st, p)).1.2 in
  (pool_exec P a w t n (st, p)).1.1 = (worker_exec P a w' t n st).1
  /\ (pool_exec P a w t n (st, p)).2 = (worker_exec P a w' t n st).2.
Proof.
  cbn zeta. induction n as [|n IH]; [split; reflexivity|].
  rewrite worker_exec_snoc, pool_exec_snoc. cbn zeta. cbn [fst snd].
  destruct IH as [<- <-]. replace (t + n - t) with n by lia.
  destruct (pool_exec P a w t n (st, p)) as [[st1 p1] tr1]. cbn [fst snd].
  unfold pool_step. cbn [fst snd].
  destruct (worker_step P a (pool_obs (w (t + n)) p1) st1) as [st2 ev2].
  split; reflexivity.
Qed.







End Exhaustion.




(** ** Which queue an item goes to *)

Section Queues.

Variable P : Parser.
Variable a : args.
Variable w : world.

Lemma pool_step_out o st p :
  let r := pool_step P a o (st, p) in
  out_queue r.1.2 = out_queue p ++ forwarded r.2.
Proof.
  unfold pool_step, pool_obs, pool_get, pool_output, pool_input.
  destruct st; cbn [fst snd worker_step o_signal o_get o_fetch o_output o_input];
    unfold retry_loop, next_item;
    repeat case_match; simplify_eq; cbn; rewrite ?app_nil_r; reflexivity.
Qed.

Lemma pool_exec_out n : forall t st p,
  let r := pool_exec P a w t n (st, p) in
  out_queue r.1.2 = out_queue p ++ forwarded r.2.
Proof.
  induction n as [|n IH]; intros t st p.
  - simpl. rewrite app_nil_r. reflexivity.
  - cbn zeta. rewrite pool_exec_S. cbn zeta. cbn [fst snd].
    pose proof (pool_step_out (w t) st p) as H1. cbn zeta in H1.
    destruct (pool_step P a (w t) (st, p)) as [[st1 p1] ev1]. cbn [fst snd] in *.
    pose proof (IH (S t) st1 p1) as H2. cbn zeta in H2.
    destruct (pool_exec P a w (S t) n (st1, p1)) as [[st2 p2] ev2]. cbn [fst snd] in *.
    unfold forwarded in *. rewrite omap_app, H2, H1, app_assoc. reflexivity.
Qed.

End Queues.

(** C8: every task and locator that [parse] yields for a fetched page goes
    to its queue.  While the quota signal is unset, the first item of the
    generator comes up at the guard, then at the dispatch, and the item
    after it does once it is through; over a whole run the tasks yielded
    are those forwarded to the output queue followed by those still pending
    at the worker, in order, and the locators yielded those put back on the
    input queue followed by those still pending.  At the dispatch a [dict]
    is handed to [self.output] and to nothing else, a [str] to [self.input]
    and to nothing else.  On the pool, a task that is accepted joins the
    tail of the connected output queue and leaves the input queue as it was,
    and a locator that is accepted joins the tail of the pool's own input
    queue and leaves the output queue as it was; over a whole run the output
    queue grows by exactly the tasks put, in order, and the input queue by
    exactly the locators put back.  A locator fetched at the first attempt,
    on queues that accept, has all its tasks forwarded and all its locators
    put back by the time the worker is at the top of its loop again. *)
Theorem dict_to_output_str_to_input P a w t n o st url retry g p d s :
  List.filter is_put (worker_step P a o (SPush url retry (PDict d) g)).2
    = [EvOutput d 1 (o_output o d)]
  /\ List.filter is_put (worker_step P a o (SPush url retry (PStr s) g)).2
    = [EvInput s 1 (o_input o s)]
  /\ (queue_full (out_size p) (out_queue p) = false ->
      exists p', pool_step P a o (SPush url retry (PDict d) g, p)
                 = (SAfter url retry g, p', [EvOutput d 1 PutOk])
                 /\ out_queue p' = out_queue p ++ [d] /\ in_queue p' = in_queue p)
  /\ (queue_full (in_size p) (in_queue p) = false ->
      exists p', pool_step P a o (SPush url retry (PStr s) g, p)
                 = (SAfter url retry g, p', [EvInput s 1 PutOk])
                 /\ in_queue p' = in_queue p ++ [s] /\ out_queue p' = out_queue p)
  /\ out_queue (pool_exec P a w t n (st, p)).1.2
     = out_queue p ++ forwarded (pool_exec P a w t n (st, p)).2
  /\ (empty_seen st p ->
      in_queue p ++ requeued (pool_exec P a w t n (st, p)).2
      = dequeued (pool_exec P a w t n (st, p)).2 ++ in_queue (pool_exec P a w t n (st, p)).1.2)
  /\ (forall r x g', o_fetch o url = FetchOk r -> parse P r = GYield x g' ->
        (worker_step P a o (SFetch url retry)).1 = SGuard url retry x g')
  /\ (forall x g', Signal.get (o_signal o) "reach_max_num" = false ->
        worker_step P a o (SGuard url retry x g') = (SPush url retry x g', [])
        /\ worker_step P a o (SAfter url retry (GYield x g')) = (SGuard url retry x g', []))
  /\ ((forall t', t <= t' -> quota_at w t' = false) ->
      dicts_of (pending_items st) ++ dicts_of (yielded P (trace (worker_exec P a w t n st)))
      = forwarded (trace (worker_exec P a w t n st))
        ++ dicts_of (pending_items (final_state (worker_exec P a w t n st)))
      /\ strs_of (pending_items st) ++ strs_of (yielded P (trace (worker_exec P a w t n st)))
         = requeued (trace (worker_exec P a w t n st))
           ++ strs_of (pending_items (final_state (worker_exec P a w t n st))))
  /\ ((forall t', t <= t' -> quota_at w t' = false) -> empty_seen st p ->
      out_queue (pool_exec P a w t n (st, p)).1.2
      ++ dicts_of (pending_items (pool_exec P a w t n (st, p)).1.1)
      = out_queue p ++ dicts_of (pending_items st)
        ++ dicts_of (yielded P (pool_exec P a w t n (st, p)).2)
      /\ in_queue p ++ strs_of (pending_items st)
         ++ strs_of (yielded P (pool_exec P a w t n (st, p)).2)
         = dequeued (pool_exec P a w t n (st, p)).2
           ++ in_queue (pool_exec P a w t n (st, p)).1.2
           ++ strs_of (pending_items (pool_exec P a w t n (st, p)).1.1))
  /\ (forall r, o_get (w t) = GetItem url -> (0 < max_retry a)%Z ->
        o_fetch (w (1 + t)) url = FetchOk r ->
        raises (parse P r) = false ->
        (forall t', 1 + t < t' -> calm (w t')) ->
        exists tr,
          worker_exec P a w t (2 + 3 * length (items (parse P r))) SDequeue = (STop, tr)
          /\ forwarded tr = dicts_of (items (parse P r))
          /\ requeued tr = strs_of (items (parse P r))).
Proof.
  unfold trace, final_state.
  split; [simpl; destruct (o_output o d); reflexivity|].
  split; [simpl; destruct (o_input o s); reflexivity|].
  split.
  { intros H. unfold pool_step. simpl. unfold pool_output. rewrite H.
    eexists. split; [reflexivity|]. simpl. auto. }
  split.
  { intros H. unfold pool_step. simpl. unfold pool_input. rewrite H.
    eexists. split; [reflexivity|]. simpl. auto. }
  split; [apply (pool_exec_out P a w n t st p)|].
  split; [intros H; apply (pool_exec_queue P a w n t st p H)|].
  split; [intros r x g' Hf Hp; simpl; rewrite Hf, Hp; reflexivity|].
  split; [intros x g' Hq; simpl; rewrite Hq; auto|].
  split; [apply exec_delivered_queues|].
  split; [|intros r; apply deliver_page].
  intros Hq Hs.
  destruct (pool_exec_worker P a w st p t n) as [E1 E2]. cbn zeta in E1, E2.
  destruct (exec_delivered_queues P a
    (fun t' => pool_obs (w t') (pool_exec P a w t (t' - t) (st, p)).1.2) n t st Hq)
    as [D1 D2].
  rewrite <- E1, <- E2 in D1, D2.
  pose proof (pool_exec_out P a w n t st p) as Ho.
  destruct (pool_exec_queue P a w n t st p Hs) as (Hi & _). cbn zeta in *.
  split.
  - rewrite Ho, <- app_assoc, <- D1. reflexivity.
  - rewrite D2, app_assoc, Hi, <- app_assoc. reflexivity.
Qed.

(** ** The bookkeeping of unfinished tasks *)

Section TaskDone.

Variable P : Parser.
Variable a : args.
Variable w : world.

Lemma step_task_done o st :
  let r := worker_step P a o st in
  count is_fetch_ok r.2 + holds_fetched st = count is_task_done r.2 + holds_fetched r.1.
Proof.
  destruct st; simpl; unfold retry_loop, next_item; repeat case_match;
    simplify_eq; reflexivity.
Qed.

Lemma exec_task_done n : forall t st,
  let r := worker_exec P a w t n st in
  count is_fetch_ok r.2 + holds_fetched st = count is_task_done r.2 + holds_fetched r.1.
Proof.
  induction n as [|n IH]; intros t st; [reflexivity|].
  cbn zeta. rewrite worker_exec_S. cbn zeta. cbn [fst snd]. rewrite !count_app.
  pose proof (step_task_done (w t) st) as H1.
  pose proof (IH (S t) (worker_step P a (w t) st).1) as H2. cbn zeta in *. lia.
Qed.

(** A dequeued locator has at most one fetch that answers. *)
Lemma step_one_answer o st :
  let r := worker_step P a o st in
  count is_fetch_ok r.2 + fetching r.1 <= count is_got r.2 + fetching st.
Proof.
  destruct st; simpl; unfold retry_loop, next_item; repeat case_match;
    simplify_eq; simpl; lia.
Qed.

Lemma exec_one_answer n : forall t st,
  let r := worker_exec P a w t n st in
  count is_fetch_ok r.2 + fetching r.1 <= count is_got r.2 + fetching st.
Proof.
  induction n as [|n IH]; intros t st; [simpl; lia|].
  cbn zeta. rewrite worker_exec_S. cbn zeta. cbn [fst snd]. rewrite !count_app.
  pose proof (step_one_answer (w t) st) as H1.
  pose proof (IH (S t) (worker_step P a (w t) st).1) as H2. cbn zeta in *. lia.
Qed.

(** [task_done()] is reached only from the end of the [for] loop. *)
Lemma task_done_origin o st :
  count is_task_done (worker_step P a o st).2 <= 1
  /\ (count is_task_done (worker_step P a o st).2 = 1 ->
      (worker_step P a o st).1 = STop
      /\ ((exists url retry r, st = SFetch url retry /\ o_fetch o url = FetchOk r
                               /\ parse P r = GStop)
          \/ (exists url retry g, st = SAfter url retry g))).
Proof.
  destruct st; simpl; unfold retry_loop, next_item; repeat case_match;
    simplify_eq; cbn; (split; [lia|]); intros Hc; try discriminate;
    (split; [reflexivity|]); eauto 10.
Qed.

Lemma pool_step_unfinished o st p :
  let r := pool_step P a o (st, p) in
  unfinished r.1.2
  = (unfinished p + Z.of_nat (length (requeued r.2)) - Z.of_nat (count is_task_done r.2))%Z
  /\ ((Z.of_nat (length (in_queue p)) + owes st <= unfinished p)%Z ->
      (Z.of_nat (length (in_queue r.1.2)) + owes r.1.1 <= unfinished r.1.2)%Z).
Proof.
  unfold pool_step, pool_obs, pool_get, pool_output, pool_input.
  destruct st; cbn [fst snd worker_step o_signal o_get o_fetch o_output o_input];
    unfold retry_loop, next_item;
    repeat case_match; simplify_eq; cbn in *;
    rewrite ?length_app; cbn; (split; [lia|]); try lia;
    match goal with H : in_queue _ = _ |- _ => rewrite H end; cbn; lia.
Qed.

Lemma pool_exec_unfinished n : forall t st p,
  let r := pool_exec P a w t n (st, p) in
  unfinished r.1.2
  = (unfinished p + Z.of_nat (length (requeued r.2)) - Z.of_nat (count is_task_done r.2))%Z
  /\ ((Z.of_nat (length (in_queue p)) + owes st <= unfinished p)%Z ->
      (Z.of_nat (length (in_queue r.1.2)) + owes r.1.1 <= unfinished r.1.2)%Z).
Proof.
  induction n as [|n IH]; intros t st p.
  - simpl. split; [lia|auto].
  - cbn zeta. rewrite pool_exec_S. cbn zeta. cbn [fst snd].
    destruct (pool_step_unfinished (w t) st p) as (H1 & H2). cbn zeta in *.
    destruct (pool_step P a (w t) (st, p)) as [[st1 p1] ev1]. cbn [fst snd] in *.
    destruct (IH (S t) st1 p1) as (I1 & I2). cbn zeta in *.
    destruct (pool_exec P a w (S t) n (st1, p1)) as [[st2 p2] ev2]. cbn [fst snd] in *.
    rewrite requeued_app, count_app, length_app. split; [lia|auto].
Qed.

End TaskDone.

Lemma holds_fetched_split st : holds_fetched st = emitting st + crashed st.
Proof. destruct st; reflexivity. Qed.

Lemma safe_not_crashed st : safe st = true -> crashed st = 0.
Proof. destruct st; simpl; intros H; try reflexivity; discriminate. Qed.

Lemma idle_holds_nothing st : idle st = true -> holds_fetched st = 0 /\ fetching st = 0.
Proof. destruct st; simpl; intros H; try discriminate; auto. Qed.

Lemma count_le f g tr :
  (forall e, f e = true -> g e = true) -> count f tr <= count g tr.
Proof.
  intros Hfg. induction tr as [|e tr IH]; simpl; [lia|].
  destruct (f e) eqn:Ef; [rewrite (Hfg e Ef)|destruct (g e)]; lia.
Qed.

(** C10, as the code has it: over any run of the worker from the top of
    its loop, the fetches that answered are the calls of [task_done()],
    plus the one fetch whose items the worker is still putting, plus the one
    fetch whose callback raised, if any: a locator whose callback raises
    never gets its call.  With a callback that yields its items without
    raising, the calls of [task_done()] are exactly the fetches that
    answered, less the one still being emitted.  Locator by locator: from
    the [get] of a locator until the worker is back at the top of its loop,
    [task_done()] is called once if a fetch answered and not at all
    otherwise, and a dequeued locator has at most one fetch that answers.
    A locator given up after its last failed attempt gets no call, and
    neither does a quota exit at the top of the loop; a locator whose items
    are cut short by the quota signal has been fetched and gets its one
    call.  [task_done()] is reached only at the end of the [for] loop
    (line 114): after a fetch that answered with nothing to yield, or after
    the check of line 112.  On the pool, the unfinished count is its start
    value plus one per locator put back, less one per [task_done()], and it
    never drops below the number of queued locators. *)
Theorem task_done_on_fetch_success P a w t n p :
  (count is_fetch_ok (trace (worker_exec P a w t n STop))
   = count is_task_done (trace (worker_exec P a w t n STop))
     + emitting (final_state (worker_exec P a w t n STop))
     + crashed (final_state (worker_exec P a w t n STop)))
  /\ ((forall r, raises (parse P r) = false) ->
      crashed (final_state (worker_exec P a w t n STop)) = 0
      /\ count is_fetch_ok (trace (worker_exec P a w t n STop))
         = count is_task_done (trace (worker_exec P a w t n STop))
           + emitting (final_state (worker_exec P a w t n STop)))
  /\ (count is_get (trace (worker_exec P a w t n SDequeue)) <= 1 ->
      idle (final_state (worker_exec P a w t n SDequeue)) = true ->
      count is_task_done (trace (worker_exec P a w t n SDequeue))
      = count is_fetch_ok (trace (worker_exec P a w t n SDequeue))
      /\ count is_fetch_ok (trace (worker_exec P a w t n SDequeue)) <= 1)
  /\ (count is_fetch_ok (trace (worker_exec P a w t n STop))
      <= count is_got (trace (worker_exec P a w t n STop)))
  /\ (forall o st,
        count is_task_done (worker_step P a o st).2 = 1 ->
        (worker_step P a o st).1 = STop
        /\ ((exists url retry r, st = SFetch url retry /\ o_fetch o url = FetchOk r
                                 /\ parse P r = GStop)
            \/ (exists url retry g, st = SAfter url retry g)))
  /\ (forall o url retry e, o_fetch o url = FetchRaise e ->
        count is_task_done (worker_step P a o (SFetch url retry)).2 = 0)
  /\ (forall o, count is_task_done (worker_step P a o STop).2 = 0)
  /\ (forall o url retry g, Signal.get (o_signal o) "reach_max_num" = true ->
        worker_step P a o (SAfter url retry g) = (STop, [EvTaskDone]))
  /\ (count is_fetch_ok (pool_exec P a w t n (STop, p)).2
      = count is_task_done (pool_exec P a w t n (STop, p)).2
        + emitting (pool_exec P a w t n (STop, p)).1.1
        + crashed (pool_exec P a w t n (STop, p)).1.1)
  /\ ((forall r, raises (parse P r) = false) ->
      count is_fetch_ok (pool_exec P a w t n (STop, p)).2
      = count is_task_done (pool_exec P a w t n (STop, p)).2
        + emitting (pool_exec P a w t n (STop, p)).1.1)
  /\ (unfinished (pool_exec P a w t n (STop, p)).1.2
      = (unfinished p
         + Z.of_nat (length (requeued (pool_exec P a w t n (STop, p)).2))
         - Z.of_nat (count is_task_done (pool_exec P a w t n (STop, p)).2))%Z)
  /\ ((Z.of_nat (length (in_queue p)) <= unfinished p)%Z ->
      (Z.of_nat (length (in_queue (pool_exec P a w t n (STop, p)).1.2))
       <= unfinished (pool_exec P a w t n (STop, p)).1.2)%Z).
Proof.
  unfold trace, final_state.
  assert (Hrun : forall w', 
            count is_fetch_ok (worker_exec P a w' t n STop).2
            = count is_task_done (worker_exec P a w' t n STop).2
              + emitting (worker_exec P a w' t n STop).1
              + crashed (worker_exec P a w' t n STop).1).
  { intros w'. pose proof (exec_task_done P a w' n t STop) as H. cbn zeta in H.
    rewrite (holds_fetched_split (worker_exec P a w' t n STop).1) in H.
    simpl holds_fetched in H. lia. }
  assert (Hsafe : forall w', (forall r, raises (parse P r) = false) ->
            crashed (worker_exec P a w' t n STop).1 = 0).
  { intros w' Hr. apply safe_not_crashed, exec_safe; [exact Hr|reflexivity]. }
  destruct (pool_exec_worker P a w STop p t n) as [E1 E2]. cbn zeta in E1, E2.
  split; [apply Hrun|].
  split; [intros Hr; pose proof (Hsafe w Hr); pose proof (Hrun w); lia|].
  split.
  { intros Hg Hi. apply idle_holds_nothing in Hi as [Hh Hf].
    pose proof (exec_task_done P a w n t SDequeue) as H1.
    pose proof (exec_one_answer P a w n t SDequeue) as H2. cbn zeta in H1, H2.
    pose proof (count_le is_got is_get (worker_exec P a w t n SDequeue).2) as H3.
    simpl holds_fetched in H1. simpl fetching in H2.
    split; [lia|]. 
    assert (count is_got (worker_exec P a w t n SDequeue).2
            <= count is_get (worker_exec P a w t n SDequeue).2).
    { apply H3. intros [] He; try discriminate; reflexivity. }
    lia. }
  split.
  { pose proof (exec_one_answer P a w n t STop) as H. cbn zeta in H. simpl in H. lia. }
  split; [intros o st; apply (task_done_origin P a o st)|].
  split; [intros o url retry e H; simpl; rewrite H; reflexivity|].
  split; [intros o; simpl; destruct (Signal.get _ _); reflexivity|].
  split; [intros o url retry g H; simpl; rewrite H; reflexivity|].
  split; [rewrite E1, E2; apply Hrun|].
  split.
  { intros Hr. rewrite E1, E2.
    pose proof (Hsafe (fun t' => pool_obs (w t') (pool_exec P a w t (t' - t) (STop, p)).1.2) Hr).
    pose proof (Hrun (fun t' => pool_obs (w t') (pool_exec P a w t (t' - t) (STop, p)).1.2)).
    lia. }
  split; [apply (pool_exec_unfinished P a w n t STop p)|].
  intros H. pose proof (pool_exec_unfinished P a w n t STop p) as [_ H2].
  cbn zeta in H2. simpl owes in H2.
  assert (0 <= owes (pool_exec P a w t n (STop, p)).1.1)%Z
    by (destruct (pool_exec P a w t n (STop, p)).1.1; simpl; lia).
  lia.
Qed.

(** ** The crawl *)

Lemma poll_left polls :
  (poll polls).2 = true ->
  exists pre last post,
    polls = pre ++ last :: post
    /\ Forall (fun alive => alive downloader = true) pre
    /\ last downloader = false
    /\ (poll polls).1
       = flat_map (fun alive => poll_once alive ++ [CSleep 1]) pre ++ poll_once last.
Proof.
  induction polls as [|alive rest IH]; cbn [poll]; [discriminate|].
  destruct (alive downloader) eqn:Hd.
  - destruct (poll rest) as [evs done] eqn:Hr. cbn [fst snd] in *. intros Hl.
    destruct (IH Hl) as (pre & last & post & -> & Hpre & Hlast & ->).
    exists (alive :: pre), last, post. split; [reflexivity|].
    split; [constructor; assumption|]. split; [assumption|].
    cbn [flat_map]. rewrite <- !app_assoc. reflexivity.
  - intros _. exists [], alive, rest. split; [reflexivity|].
    split; [constructor|]. split; [assumption|reflexivity].
Qed.

Lemma poll_pending polls :
  ((poll polls).2 = false <-> Forall (fun alive => alive downloader = true) polls)
  /\ ((poll polls).2 = false ->
      (poll polls).1 = flat_map (fun alive => poll_once alive ++ [CSleep 1]) polls).
Proof.
  induction polls as [|alive rest [IH1 IH2]]; cbn [poll].
  - split; [split; auto|reflexivity].
  - destruct (alive downloader) eqn:Hd.
    + destruct (poll rest) as [evs done] eqn:Hr. cbn [fst snd] in *. split.
      * split.
        -- intros Hl. constructor; [exact Hd|]. apply IH1, Hl.
        -- intros H. inversion H; subst. apply IH1. assumption.
      * intros Hl. cbn [flat_map]. rewrite (IH2 Hl), <- app_assoc. reflexivity.
    + cbn [fst snd]. split; [split|]; try discriminate.
      intros H. inversion H; subst. congruence.
Qed.

Lemma signal_get_reset s name : Signal.get (Signal.reset s) name = false.
Proof.
  unfold Signal.get, Signal.reset. rewrite lookup_fmap.
  destruct (s !! name); reflexivity.
Qed.

Lemma signal_check_alive s st name alive name' :
  Signal.get (foldl signal_write s (check_alive st name alive)) name'
  = if String.eqb name name' then negb alive || Signal.get s name'
    else Signal.get s name'.
Proof.
  unfold check_alive. destruct alive; simpl.
  - destruct (String.eqb name name'); reflexivity.
  - destruct (String.eqb_spec name name') as [->|Hne].
    + apply signal_get_set.
    + apply signal_get_set_ne. exact Hne.
Qed.

Lemma signal_poll_once s alive :
  let s' := foldl signal_write s (poll_once alive) in
  Signal.get s' "feeder_exited" = negb (alive feeder) || Signal.get s "feeder_exited"
  /\ Signal.get s' "parser_exited" = negb (alive parser) || Signal.get s "parser_exited"
  /\ Signal.get s' "reach_max_num" = Signal.get s "reach_max_num".
Proof.
  cbn zeta. unfold poll_once. rewrite !foldl_app. cbn [foldl signal_write].
  rewrite !signal_check_alive. cbn. auto.
Qed.

Lemma signal_polls pre : forall s,
  let s' := foldl signal_write s
              (flat_map (fun alive => poll_once alive ++ [CSleep 1]) pre) in
  Signal.get s' "feeder_exited"
    = existsb (fun alive => negb (alive feeder)) pre || Signal.get s "feeder_exited"
  /\ Signal.get s' "parser_exited"
    = existsb (fun alive => negb (alive parser)) pre || Signal.get s "parser_exited"
  /\ Signal.get s' "reach_max_num" = Signal.get s "reach_max_num".
Proof.
  induction pre as [|alive pre IH]; intros s; [simpl; auto|].
  cbn zeta. cbn [flat_map existsb]. rewrite !foldl_app. cbn [foldl signal_write].
  destruct (IH (foldl signal_write s (poll_once alive))) as (I1 & I2 & I3).
  destruct (signal_poll_once s alive) as (P1 & P2 & P3). cbn zeta in *.
  rewrite I1, I2, I3, P1, P2, P3.
  repeat split; auto; rewrite orb_assoc; f_equal; apply orb_comm.
Qed.

Lemma starts_app tr1 tr2 : starts (tr1 ++ tr2) = starts tr1 ++ starts tr2.
Proof. apply omap_app. Qed.

Lemma starts_poll_once alive : starts (poll_once alive) = [].
Proof.
  unfold poll_once, check_alive. destruct (alive feeder), (alive parser); reflexivity.
Qed.

Lemma starts_polls pre :
  starts (flat_map (fun alive => poll_once alive ++ [CSleep 1]) pre) = [].
Proof.
  induction pre as [|alive pre IH]; [reflexivity|].
  cbn [flat_map]. rewrite !starts_app, starts_poll_once, IH. reflexivity.
Qed.

Lemma starts_drain empty : starts (drain empty ++ [CLog MsgCrawlDone]) = [].
Proof.
  unfold drain, clear_if_nonempty.
  destruct (empty feeder), (empty parser), (empty downloader); reflexivity.
Qed.

Lemma downloader_alive_app tr1 tr2 :
  downloader_alive (tr1 ++ tr2) = downloader_alive tr1 ++ downloader_alive tr2.
Proof. apply omap_app. Qed.

Lemma downloader_alive_polls pre :
  Forall (fun alive => alive downloader = true) pre ->
  downloader_alive (flat_map (fun alive => poll_once alive ++ [CSleep 1]) pre)
  = replicate (length pre) true.
Proof.
  induction 1 as [|x pre Hx Hpre IH]; [reflexivity|].
  cbn [flat_map length replicate]. rewrite downloader_alive_app, IH.
  unfold poll_once, check_alive. rewrite Hx.
  destruct (x feeder), (x parser); reflexivity.
Qed.

Lemma downloader_alive_drain empty :
  downloader_alive (drain empty ++ [CLog MsgCrawlDone]) = [].
Proof.
  unfold drain, clear_if_nonempty.
  destruct (empty feeder), (empty parser), (empty downloader); reflexivity.
Qed.

Lemma signal_drain empty s name :
  Signal.get (foldl signal_write s (drain empty ++ [CLog MsgCrawlDone])) name
  = Signal.get s name.
Proof.
  unfold drain, clear_if_nonempty.
  destruct (empty feeder), (empty parser), (empty downloader); reflexivity.
Qed.

(** C6: every [crawl] resets the registry first, then starts the feeder,
    the parser and the downloader, in that order and once each, and only
    then polls.  Each turn of the poll asks the three pools in turn, sets
    "feeder_exited" right after a feeder found dead and "parser_exited"
    right after a parser found dead, and sleeps one second unless the
    downloader was found dead; the loop is left on the first turn that
    finds the downloader dead, and is not left while every turn finds it
    alive. *)
Theorem crawl_order thread_num fk pk dk polls empty :
  (exists rest,
     (crawl thread_num fk pk dk polls empty).1
     = [CSignalReset; CLog MsgStartCrawling;
        CLog (MsgStarting feeder (thread_num feeder));
        CStart feeder (default [] fk);
        CLog (MsgStarting parser (thread_num parser));
        CStart parser (default [] pk);
        CLog (MsgStarting downloader (thread_num downloader));
        CStart downloader (default [] dk)] ++ rest
     /\ starts rest = []
     /\ ((crawl thread_num fk pk dk polls empty).2 = false ->
         rest = flat_map (fun alive => poll_once alive ++ [CSleep 1]) polls)
     /\ ((crawl thread_num fk pk dk polls empty).2 = true ->
         exists pre last post,
           polls = pre ++ last :: post
           /\ Forall (fun alive => alive downloader = true) pre
           /\ last downloader = false
           /\ rest = flat_map (fun alive => poll_once alive ++ [CSleep 1]) pre
                     ++ poll_once last ++ drain empty ++ [CLog MsgCrawlDone]
           /\ downloader_alive rest = replicate (length pre) true ++ [false]
           /\ (forall s,
                 Signal.get (foldl signal_write s (crawl thread_num fk pk dk polls empty).1)
                   "feeder_exited"
                 = existsb (fun alive => negb (alive feeder)) (pre ++ [last])
                 /\ Signal.get (foldl signal_write s (crawl thread_num fk pk dk polls empty).1)
                      "parser_exited"
                    = existsb (fun alive => negb (alive parser)) (pre ++ [last]))))
  /\ ((crawl thread_num fk pk dk polls empty).2 = false
      <-> Forall (fun alive => alive downloader = true) polls).
Proof.
  unfold crawl. destruct (poll polls) as [evs done] eqn:Hp. cbn [fst snd].
  pose proof (poll_pending polls) as [Hpend1 Hpend2].
  pose proof (poll_left polls) as Hleft.
  rewrite Hp in Hpend1, Hpend2, Hleft. cbn [fst snd] in *.
  split; [|exact Hpend1].
  exists (evs ++ (if done then drain empty ++ [CLog MsgCrawlDone] else [])).
  split; [reflexivity|].
  destruct done.
  - destruct (Hleft eq_refl) as (pre & last & post & Hpolls & Hpre & Hlast & ->).
    split; [|split; [discriminate|]].
    { rewrite (starts_app _ (drain empty ++ _)), starts_drain, starts_app.
      rewrite starts_polls, starts_poll_once. reflexivity. }
    intros _. exists pre, last, post. split; [exact Hpolls|].
    split; [exact Hpre|]. split; [exact Hlast|].
    split; [rewrite <- app_assoc; reflexivity|]. split.
    + rewrite (downloader_alive_app _ (drain empty ++ _)), downloader_alive_drain.
      rewrite downloader_alive_app, downloader_alive_polls by exact Hpre.
      rewrite app_nil_r. unfold poll_once, check_alive. rewrite Hlast.
      destruct (last feeder), (last parser); reflexivity.
    + intros s. rewrite !foldl_app.
      set (s0 := foldl signal_write s (startup thread_num fk pk dk)).
      assert (H0 : forall name, Signal.get s0 name = false)
        by (intros name; unfold s0; cbn; apply signal_get_reset).
      destruct (signal_polls pre s0) as (P1 & P2 & _). cbn zeta in *.
      set (s1 := foldl signal_write s0 _) in *.
      destruct (signal_poll_once s1 last) as (L1 & L2 & _). cbn zeta in *.
      set (s2 := foldl signal_write s1 _) in *.
      rewrite <- foldl_app, !signal_drain, L1, L2, P1, P2, !H0, !existsb_app.
      cbn. rewrite !orb_false_r. split; apply orb_comm.
  - rewrite app_nil_r. rewrite (Hpend2 eq_refl).
    split; [apply starts_polls|]. split; [reflexivity|discriminate].
Qed.

Lemma clears_app tr1 tr2 : clears (tr1 ++ tr2) = clears tr1 ++ clears tr2.
Proof. apply omap_app. Qed.

Lemma clears_poll_once alive : clears (poll_once alive) = [].
Proof.
  unfold poll_once, check_alive. destruct (alive feeder), (alive parser); reflexivity.
Qed.

Lemma clears_polls pre :
  clears (flat_map (fun alive => poll_once alive ++ [CSleep 1]) pre) = [].
Proof.
  induction pre as [|alive pre IH]; [reflexivity|].
  cbn [flat_map]. rewrite !clears_app, clears_poll_once, IH. reflexivity.
Qed.

(** C7: once the poll loop is left, [crawl] looks at the three input
    queues in the order feeder, parser, downloader, and calls
    [clear_buffer] on each one that is not empty: without argument for the
    feeder and for the parser, with [True] for the downloader.  These are
    the only [clear_buffer] calls of a crawl, none is made while the loop is
    still polling, and nothing but the final log line follows them. *)
Theorem crawl_drains thread_num fk pk dk polls empty :
  ((crawl thread_num fk pk dk polls empty).2 = true ->
   exists before,
     (crawl thread_num fk pk dk polls empty).1
     = before
       ++ (CEmpty feeder (empty feeder)
             :: (if empty feeder then [] else [CClearBuffer feeder []]))
       ++ (CEmpty parser (empty parser)
             :: (if empty parser then [] else [CClearBuffer parser []]))
       ++ (CEmpty downloader (empty downloader)
             :: (if empty downloader then [] else [CClearBuffer downloader [true]]))
       ++ [CLog MsgCrawlDone]
     /\ last before = Some (CIsAlive downloader false)
     /\ clears before = []
     /\ clears (crawl thread_num fk pk dk polls empty).1
        = (if empty feeder then [] else [(feeder, [])])
          ++ (if empty parser then [] else [(parser, [])])
          ++ (if empty downloader then [] else [(downloader, [true])]))
  /\ ((crawl thread_num fk pk dk polls empty).2 = false ->
      clears (crawl thread_num fk pk dk polls empty).1 = []).
Proof.
  unfold crawl. destruct (poll polls) as [evs done] eqn:Hp. cbn [fst snd].
  pose proof (poll_pending polls) as [_ Hpend].
  pose proof (poll_left polls) as Hleft.
  rewrite Hp in Hpend, Hleft. cbn [fst snd] in *. split.
  - intros ->. destruct (Hleft eq_refl) as (pre & last & post & _ & Hpre & Hlast & ->).
    exists (startup thread_num fk pk dk
            ++ flat_map (fun alive => poll_once alive ++ [CSleep 1]) pre ++ poll_once last).
    assert (Hc : clears (startup thread_num fk pk dk
            ++ flat_map (fun alive => poll_once alive ++ [CSleep 1]) pre ++ poll_once last) = []).
    { rewrite !clears_app, clears_polls, clears_poll_once. reflexivity. }
    split; [|split; [|split]].
    + unfold drain, clear_if_nonempty. rewrite <- !app_assoc. reflexivity.
    + unfold poll_once. rewrite Hlast, !app_assoc. apply last_snoc.
    + exact Hc.
    + rewrite !clears_app in *. rewrite clears_polls, clears_poll_once in *.
      unfold drain, clear_if_nonempty.
      destruct (empty feeder), (empty parser), (empty downloader); reflexivity.
  - intros ->. rewrite (Hpend eq_refl), !clears_app, clears_polls. reflexivity.
Qed.

(** ** Worked runs *)

Lemma failing_until_calm t0 t : calm (failing_until t0 t).
Proof. split; [reflexivity|]. intros [d|s|r]; reflexivity. Qed.

(** The signal is set from tick 3 on: nothing is put from the guard on,
    at most one item from a put under way, and the worker has stopped ten
    ticks later. *)
Lemma quota_stops_emission_witness :
  emitted (trace (worker_exec mixed_parser default_args (quota_world 3) 3 10
                    (SGuard sample_url 3 (PDict sample_task) GStop))) = []
  /\ length (emitted (trace (worker_exec mixed_parser default_args (quota_world 3) 3 10
                    (SGuard sample_url 3 (PDict sample_task) GStop)))) <= 1
  /\ worker_step mixed_parser default_args (quota_world 3 5)
       (SGuard sample_url 3 (PDict sample_task) GStop)
     = (SAfter sample_url 3 GStop, [])
  /\ worker_step mixed_parser default_args (quota_world 3 5) (SAfter sample_url 3 GStop)
     = (STop, [EvTaskDone])
  /\ worker_step mixed_parser default_args (quota_world 3 5) STop
     = (SExited QuotaExit, [EvLog INFO MsgQuotaReached; EvLog INFO MsgThreadExit])
  /\ terminal (final_state (worker_exec mixed_parser default_args (quota_world 3) 3 10
                    (SGuard sample_url 3 (PDict sample_task) GStop))) = true.
Proof.
  destruct (quota_stops_emission mixed_parser default_args (quota_world 3) 3
              (SGuard sample_url 3 (PDict sample_task) GStop) (quota_world_set 3))
    as (H1 & H2 & H3 & H4 & H5 & H6).
  split; [apply H1; reflexivity|].
  split; [apply H2|].
  split; [apply H3; lia|].
  split; [apply H4; lia|].
  split; [apply H5; lia|apply H6; simpl; lia].
Defined.


(** An [int] among the items: dropped without a trace, and the locator
    that follows it comes up at the guard. *)
Lemma other_item_discarded_witness :
  worker_exec mixed_parser default_args steady_world 0 2
    (SGuard sample_url 3 (POther "42") (GYield (PStr "next") GStop))
  = (SAfter sample_url 3 (GYield (PStr "next") GStop), [])
  /\ worker_exec mixed_parser default_args steady_world 0 3
       (SGuard sample_url 3 (POther "42") (GYield (PStr "next") GStop))
     = (SGuard sample_url 3 (PStr "next") GStop, []).
Proof.
  destruct (other_item_discarded mixed_parser default_args steady_world 0 sample_url 3 "42"
              (GYield (PStr "next") GStop)) as (_ & H2 & H3).
  split.
  - apply H2. reflexivity.
  - apply (H3 eq_refl eq_refl (PStr "next") GStop). reflexivity.
Defined.

(** A task and a locator pushed on a pool with room in both queues; and
    one page of [mixed_parser] on a pool without bounds: its task ends up
    in the output queue, its locator back in the input queue, its [int]
    nowhere. *)
Lemma dict_to_output_str_to_input_witness :
  (exists p', pool_step mixed_parser default_args (steady_world 0)
                (SPush sample_url 3 (PDict sample_task) GStop, sample_pool)
              = (SAfter sample_url 3 GStop, p', [EvOutput sample_task 1 PutOk])
              /\ out_queue p' = [sample_task]
              /\ in_queue p' = ["http://a"; "http://b"])
  /\ (exists p', pool_step mixed_parser default_args (steady_world 0)
                   (SPush sample_url 3 (PStr "http://c") GStop, sample_pool)
                 = (SAfter sample_url 3 GStop, p', [EvInput "http://c" 1 PutOk])
                 /\ in_queue p' = ["http://a"; "http://b"; "http://c"]
                 /\ out_queue p' = [])
  /\ (worker_step mixed_parser default_args (steady_world 0) (SFetch sample_url 3)).1
     = SGuard sample_url 3 (PDict sample_task)
         (GYield (PStr "http://example.com/next") (GYield (POther "42") GStop))
  /\ worker_step mixed_parser default_args (steady_world 0)
       (SAfter sample_url 3 (GYield (PStr "http://example.com/next") GStop))
     = (SGuard sample_url 3 (PStr "http://example.com/next") GStop, [])
  /\ forwarded (trace (worker_exec mixed_parser default_args steady_world 0 12 STop))
     = [sample_task]
  /\ out_queue (pool_exec mixed_parser default_args steady_world 0 12
                  (STop, unbounded_pool)).1.2 = [sample_task]
  /\ in_queue (pool_exec mixed_parser default_args steady_world 0 12
                 (STop, unbounded_pool)).1.2 = ["http://example.com/next"]
  /\ (exists tr,
        worker_exec mixed_parser default_args steady_world 0 11 SDequeue = (STop, tr)
        /\ forwarded tr = [sample_task]
        /\ requeued tr = ["http://example.com/next"]).
Proof.
  destruct (dict_to_output_str_to_input mixed_parser default_args steady_world 0 0
              (steady_world 0) STop sample_url 3 GStop sample_pool sample_task "http://c")
    as (_ & _ & H3 & H4 & _ & H6 & H7 & H8 & _ & _ & H11).
  pose proof (H6 I) as _.
  destruct (dict_to_output_str_to_input mixed_parser default_args steady_world 0 12
              (steady_world 0) STop sample_url 3 GStop unbounded_pool sample_task "http://c")
    as (_ & _ & _ & _ & _ & _ & _ & _ & H9 & H10 & _).
  assert (Hq : forall t', 0 <= t' -> quota_at steady_world t' = false)
    by (intros t' _; reflexivity).
  destruct (H9 Hq) as [D1 _]. destruct (H10 Hq I) as [O1 O2].
  assert (Ew : final_state (worker_exec mixed_parser default_args steady_world 0 12 STop)
               = STop) by (vm_compute; reflexivity).
  assert (Ep : (pool_exec mixed_parser default_args steady_world 0 12
                  (STop, unbounded_pool)).1.1 = STop) by (vm_compute; reflexivity).
  rewrite Ew in D1. rewrite Ep in O1, O2. cbn [pending_items dicts_of strs_of omap] in *.
  rewrite ?app_nil_r in *.
  split; [apply H3; reflexivity|].
  split; [apply H4; reflexivity|].
  split; [apply (H7 "body"); reflexivity|].
  split; [apply H8; reflexivity|].
  split; [rewrite <- D1; vm_compute; reflexivity|].
  split; [rewrite O1; vm_compute; reflexivity|].
  split.
  - apply (app_inv_head (dequeued (pool_exec mixed_parser default_args steady_world 0 12
                                     (STop, unbounded_pool)).2)).
    rewrite <- O2. vm_compute. reflexivity.
  - apply (H11 "body"); [reflexivity|reflexivity|reflexivity|reflexivity|].
    intros t' _. split; [reflexivity|]. intros [d|s|r]; reflexivity.
Defined.

(** The output queue is full for the first three puts of a task: three
    rounds of put and sleep, then the fourth put delivers it. *)
Lemma full_queue_never_drops_witness :
  worker_exec one_task_parser default_args (full_until 6) 0 6
    (SGuard sample_url 3 (PDict sample_task) GStop)
  = (SGuard sample_url 3 (PDict sample_task) GStop, backpressure (PDict sample_task) 3)
  /\ worker_step one_task_parser default_args (full_until 6 1)
       (SPush sample_url 3 (PDict sample_task) GStop)
     = (SGuard sample_url 3 (PDict sample_task) GStop,
        [EvOutput sample_task 1 PutFull; EvSleep 1])
  /\ (((SAfter sample_url 3 GStop = SGuard sample_url 3 (PDict sample_task) GStop
        \/ SAfter sample_url 3 GStop = SPush sample_url 3 (PDict sample_task) GStop)
       /\ Forall (failed_put_event (PDict sample_task) sample_url)
            (backpressure (PDict sample_task) 3 ++ [EvOutput sample_task 1 PutOk]))
      \/ exists k tr_k,
           k < 8 /\ Forall (failed_put_event (PDict sample_task) sample_url) tr_k /\
           ((worker_exec one_task_parser default_args (full_until 6) 0 k
               (SGuard sample_url 3 (PDict sample_task) GStop)
             = (SGuard sample_url 3 (PDict sample_task) GStop, tr_k)
             /\ quota_at (full_until 6) (0 + k) = true
             /\ worker_exec one_task_parser default_args (full_until 6) 0 (S k)
                  (SGuard sample_url 3 (PDict sample_task) GStop)
                = (SAfter sample_url 3 GStop, tr_k))
            \/
            (worker_exec one_task_parser default_args (full_until 6) 0 k
               (SGuard sample_url 3 (PDict sample_task) GStop)
             = (SPush sample_url 3 (PDict sample_task) GStop, tr_k)
             /\ put_answer (full_until 6 (0 + k)) (PDict sample_task) = PutOk
             /\ worker_exec one_task_parser default_args (full_until 6) 0 (S k)
                  (SGuard sample_url 3 (PDict sample_task) GStop)
                = (SAfter sample_url 3 GStop, tr_k ++ put_event (PDict sample_task) PutOk)))).
Proof.
  destruct (full_queue_never_drops one_task_parser default_args (full_until 6)
              sample_url 3 (PDict sample_task) GStop eq_refl) as (H1 & H2 & H3).
  split; [|split].
  - apply (H2 3 0). intros k Hk.
    destruct k as [|[|[|k]]]; [split; reflexivity..|lia].
  - apply (H1 (full_until 6 1)). reflexivity.
  - apply (H3 0 8). vm_compute. reflexivity.
Defined.

(** Three attempts allowed.  When all three fail the locator is dropped
    and the worker is back at the top; when the third answers, the task,
    the locator and nothing else of what [mixed_parser] yields are put. *)
Lemma retry_budget_witness :
  (Z.of_nat (count is_request
     (trace (worker_exec mixed_parser default_args (failing_until 4) 0 4 SDequeue))) <= 3)%Z
  /\ (exists tr,
        worker_exec mixed_parser default_args (failing_until 4) 0 4 SDequeue = (STop, tr)
        /\ emitted tr = [] /\ count is_put tr = 0
        /\ count is_request tr = 3 /\ count is_task_done tr = 0)
  /\ (exists tr,
        worker_exec mixed_parser default_args (failing_until 3) 0 13 SDequeue = (STop, tr)
        /\ emitted tr = [PDict sample_task; PStr "http://example.com/next"]
        /\ count is_request tr = 3 /\ count is_task_done tr = 1).
Proof.
  split; [|split].
  - destruct (retry_budget mixed_parser default_args (failing_until 4) 0 sample_url)
      as (H1 & _ & _).
    apply (H1 4). vm_compute. lia.
  - destruct (retry_budget mixed_parser default_args (failing_until 4) 0 sample_url)
      as (_ & H2 & _).
    apply (H2 2); [reflexivity|reflexivity|].
    intros k Hk. exists (Exc "ConnectionError").
    destruct k as [|[|[|k]]]; [reflexivity..|lia].
  - destruct (retry_budget mixed_parser default_args (failing_until 3) 0 sample_url)
      as (_ & _ & H3).
    apply (H3 2 "body"); [reflexivity|reflexivity| |reflexivity|reflexivity|].
    + intros k Hk. exists (Exc "ConnectionError").
      destruct k as [|[|k]]; [reflexivity..|lia].
    + intros t' _. apply failing_until_calm.
Defined.



(** Two locators, one task each: two fetches answered, two calls of
    [task_done()], and the unfinished count back to zero; one locator from
    its [get] to the top of the loop: one call. *)
Lemma task_done_on_fetch_success_witness :
  count is_task_done
    (trace (worker_exec one_task_parser default_args steady_world 0 12 STop)) = 2
  /\ count is_task_done
       (trace (worker_exec one_task_parser default_args steady_world 0 5 SDequeue)) = 1
  /\ count is_task_done
       (pool_exec one_task_parser default_args drained_world 0 15 (STop, sample_pool)).2 = 2
  /\ unfinished (pool_exec one_task_parser default_args drained_world 0 15 (STop, sample_pool)).1.2
     = 0%Z
  /\ count is_task_done
       (worker_step one_task_parser default_args (failing_until 3 0) (SFetch sample_url 1)).2
     = 0
  /\ worker_step one_task_parser default_args (quota_world 0 0) (SAfter sample_url 3 GStop)
     = (STop, [EvTaskDone])
  /\ (Z.of_nat (length (in_queue
        (pool_exec one_task_parser default_args drained_world 0 15 (STop, sample_pool)).1.2))
      <= unfinished
           (pool_exec one_task_parser default_args drained_world 0 15 (STop, sample_pool)).1.2)%Z
  /\ worker_step one_task_parser default_args (steady_world 0) (SAfter sample_url 3 GStop)
     = (STop, [EvTaskDone]).
Proof.
  destruct (task_done_on_fetch_success one_task_parser default_args steady_world 0 12 sample_pool)
    as (_ & H1 & _ & _ & H2 & _).
  destruct (task_done_on_fetch_success one_task_parser default_args steady_world 0 5 sample_pool)
    as (_ & _ & E & _).
  destruct (task_done_on_fetch_success one_task_parser default_args drained_world 0 15 sample_pool)
    as (_ & _ & _ & _ & _ & H3 & _ & H5 & _ & H6 & H7 & H8).
  split; [|split; [|split; [|split; [|split; [|split; [|split]]]]]].
  - destruct (H1 (fun _ => eq_refl)) as [_ Hc].
    apply Nat.add_cancel_r with (p := emitting
      (final_state (worker_exec one_task_parser default_args steady_world 0 12 STop))).
    rewrite <- Hc. vm_compute. reflexivity.
  - destruct E as [Ec _]; [vm_compute; lia|vm_compute; reflexivity|].
    rewrite Ec. vm_compute. reflexivity.
  - apply Nat.add_cancel_r with (p := emitting
      (pool_exec one_task_parser default_args drained_world 0 15 (STop, sample_pool)).1.1).
    rewrite <- (H6 (fun _ => eq_refl)). vm_compute. reflexivity.
  - rewrite H7. vm_compute. reflexivity.
  - apply (H3 (failing_until 3 0) sample_url 1%Z (Exc "ConnectionError")). reflexivity.
  - apply H5. reflexivity.
  - apply H8. vm_compute. discriminate.
  - assert (Eo : count is_task_done
       (worker_step one_task_parser default_args (steady_world 0) (SAfter sample_url 3 GStop)).2 = 1)
      by reflexivity.
    destruct (H2 _ _ Eo) as [Hs _].
    destruct (worker_step one_task_parser default_args (steady_world 0) (SAfter sample_url 3 GStop))
      as [st' tr'] eqn:Es.
    simpl in Hs. subst st'. vm_compute in Es. congruence.
Defined.

(** The callback of the base class raises on the first page: one fetch
    has answered, the worker is gone, and [task_done()] was never called.
    And a locator whose one task is skipped because the quota signal was set
    while it was being fetched still gets its [task_done()]. *)
Lemma task_done_off_fetch_success :
  (count is_got (trace (worker_exec base_parser default_args steady_world 0 10 STop)) = 1
   /\ count is_fetch_ok (trace (worker_exec base_parser default_args steady_world 0 10 STop)) = 1
   /\ count is_task_done (trace (worker_exec base_parser default_args steady_world 0 10 STop)) = 0
   /\ final_state (worker_exec base_parser default_args steady_world 0 10 STop)
      = SCrashed (Exc "NotImplementedError"))
  /\ (quota_at (quota_world 3) 2 = false /\ quota_at (quota_world 3) 3 = true
      /\ count is_fetch_ok
           (trace (worker_exec one_task_parser default_args (quota_world 3) 0 6 STop)) = 1
      /\ emitted (trace (worker_exec one_task_parser default_args (quota_world 3) 0 6 STop)) = []
      /\ count is_task_done
           (trace (worker_exec one_task_parser default_args (quota_world 3) 0 6 STop)) = 1
      /\ final_state (worker_exec one_task_parser default_args (quota_world 3) 0 6 STop)
         = SExited QuotaExit).
Proof. vm_compute. auto 10. Qed.

(** Three polls: the downloader is found dead on the third, the feeder
    on the second; only the parser's queue needs clearing. *)
Lemma crawl_order_witness :
  sample_crawl.2 = true
  /\ starts sample_crawl.1 = [feeder; parser; downloader]
  /\ downloader_alive sample_crawl.1 = [true; true; false]
  /\ Signal.get (foldl signal_write Signal.init sample_crawl.1) "feeder_exited" = true
  /\ (crawl (fun _ => 1%Z) None None None [fun _ => true; fun _ => true] sample_empty).2 = false.
Proof.
  destruct (crawl_order (fun _ => 1%Z) None (Some [("max_retry", "3")]) None
              sample_polls sample_empty) as ((rest & Htr & Hs & _ & Hret) & _).
  destruct (Hret eq_refl) as (pre & last & post & Hp & Hpre & Hlast & Hrest & Hd & Hsig).
  destruct (crawl_order (fun _ => 1%Z) None None None [fun _ => true; fun _ => true]
              sample_empty) as (_ & Hpend).
  split; [reflexivity|].
  split; [vm_compute; reflexivity|].
  split; [vm_compute; reflexivity|].
  split; [vm_compute; reflexivity|].
  apply Hpend. repeat constructor.
Defined.

Lemma crawl_drains_witness :
  clears sample_crawl.1 = [(parser, [])]
  /\ clears (crawl (fun _ => 1%Z) None None None [fun _ => true; fun _ => true] sample_empty).1
     = [].
Proof.
  destruct (crawl_drains (fun _ => 1%Z) None (Some [("max_retry", "3")]) None
              sample_polls sample_empty) as (H1 & _).
  destruct (H1 eq_refl) as (before & _ & _ & _ & Hc).
  destruct (crawl_drains (fun _ => 1%Z) None None None [fun _ => true; fun _ => true]
              sample_empty) as (_ & H2).
  split; [exact Hc|apply H2; reflexivity].
Defined.

(** * Further properties of the worker *)

(** ** Where emitted items come from *)

Section Provenance.

Variable P : Parser.
Variable a : args.
Variable w : world.

Lemma step_emits_pending o st :
  let r := worker_step P a o st in
  emitted r.2 ++ List.filter is_task_or_locator (pending_items r.1)
  `sublist_of`
  List.filter is_task_or_locator (pending_items st)
  ++ List.filter is_task_or_locator (yielded P r.2).
Proof.
  destruct st as [| | |url retry|url retry x g|url retry x g|url retry g|r|e];
    cbn zeta; unfold worker_step, retry_loop, next_item.
  - case_match; apply sublist_nil_l.
  - repeat case_match; apply sublist_nil_l.
  - case_match; apply sublist_nil_l.
  - destruct (o_fetch o url) as [r|e]; [|case_match; apply sublist_nil_l].
    destruct (parse P r) as [x g| |e] eqn:Ep; unfold yielded; cbn; rewrite Ep; cbn;
      rewrite ?app_nil_r; try apply sublist_nil_l; reflexivity.
  - case_match; cbn; rewrite ?app_nil_r; try reflexivity.
    destruct (is_task_or_locator x); [apply sublist_cons|]; reflexivity.
  - destruct x as [d|s|repr]; repeat case_match; cbn; rewrite ?app_nil_r; reflexivity.
  - destruct g; case_match; cbn; rewrite ?app_nil_r; try apply sublist_nil_l;
      reflexivity.
  - apply sublist_nil_l.
  - apply sublist_nil_l.
Qed.

Lemma exec_emits_pending n : forall t st,
  let r := worker_exec P a w t n st in
  emitted r.2 ++ List.filter is_task_or_locator (pending_items r.1)
  `sublist_of`
  List.filter is_task_or_locator (pending_items st)
  ++ List.filter is_task_or_locator (yielded P r.2).
Proof.
  induction n as [|n IH]; intros t st.
  - cbn. rewrite app_nil_r. reflexivity.
  - cbn zeta. rewrite worker_exec_S. cbn zeta. cbn [fst snd].
    pose proof (step_emits_pending (w t) st) as H1.
    pose proof (IH (S t) (worker_step P a (w t) st).1) as H2. cbn zeta in *.
    rewrite emitted_app, yielded_app, List.filter_app, <- !app_assoc.
    etrans; [apply sublist_app; [reflexivity|exact H2]|].
    rewrite !app_assoc. apply sublist_app; [exact H1|reflexivity].
Qed.

(** The local [url] is the locator of the last [get]. *)
Lemma step_requests_current o st :
  let r := worker_step P a o st in
  (forall u, u ∈ requested r.2 -> current_url st = Some u)
  /\ (forall u, current_url r.1 = Some u -> current_url st = Some u \/ u ∈ dequeued r.2).
Proof.
  destruct st; cbn zeta; unfold worker_step, retry_loop, next_item;
    repeat case_match; simplify_eq; cbn; split; intros u Hu;
    try (apply elem_of_nil in Hu; contradiction);
    try discriminate; try (left; exact Hu);
    try (apply list_elem_of_singleton in Hu; subst; reflexivity);
    try (simplify_eq; right; apply list_elem_of_singleton; reflexivity);
    try (simplify_eq; left; reflexivity).
Qed.

Lemma exec_requests_current n : forall t st,
  let r := worker_exec P a w t n st in
  (forall u, u ∈ requested r.2 -> current_url st = Some u \/ u ∈ dequeued r.2)
  /\ (forall u, current_url r.1 = Some u -> current_url st = Some u \/ u ∈ dequeued r.2).
Proof.
  induction n as [|n IH]; intros t st.
  - cbn. split; intros u Hu; [apply elem_of_nil in Hu; contradiction|left; exact Hu].
  - cbn zeta. rewrite worker_exec_S. cbn zeta. cbn [fst snd].
    destruct (step_requests_current (w t) st) as [S1 S2].
    destruct (IH (S t) (worker_step P a (w t) st).1) as [I1 I2]. cbn zeta in *.
    rewrite requested_app, dequeued_app. split; intros u Hu.
    + apply elem_of_app in Hu as [Hu|Hu]; [left; apply S1, Hu|].
      destruct (I1 u Hu) as [Hc|Hd].
      * destruct (S2 u Hc) as [?|?]; [left; assumption|right; apply elem_of_app; auto].
      * right. apply elem_of_app. auto.
    + destruct (I2 u Hu) as [Hc|Hd].
      * destruct (S2 u Hc) as [?|?]; [left; assumption|right; apply elem_of_app; auto].
      * right. apply elem_of_app. auto.
Qed.

End Provenance.

(** X1: what a worker puts on the queues is, in order and without
    repetition, a selection of the tasks and locators that [parse] yielded
    for the responses it fetched; together with the items still pending at
    the program point reached it is still such a selection.  The worker
    never makes up an item, never puts one twice and never reorders. *)
Theorem emissions_in_order P a w t n :
  emitted (trace (worker_exec P a w t n STop))
  ++ List.filter is_task_or_locator
       (pending_items (final_state (worker_exec P a w t n STop)))
  `sublist_of`
  List.filter is_task_or_locator (yielded P (trace (worker_exec P a w t n STop))).
Proof. apply (exec_emits_pending P a w n t STop). Qed.

(** X2: every locator handed to [session.get] was taken from the input
    queue by an earlier [get] of this worker. *)
Theorem fetches_only_dequeued P a w t n u :
  u ∈ requested (trace (worker_exec P a w t n STop)) ->
  u ∈ dequeued (trace (worker_exec P a w t n STop)).
Proof.
  intros Hu. destruct (exec_requests_current P a w n t STop) as [H _].
  destruct (H u Hu) as [Hc|Hd]; [discriminate|exact Hd].
Qed.

Lemma fetches_only_dequeued_witness :
  sample_url ∈ dequeued (trace (worker_exec mixed_parser default_args (failing_until 3) 0 4 STop)).
Proof.
  apply (fetches_only_dequeued mixed_parser default_args (failing_until 3) 0 4 sample_url).
  vm_compute. repeat constructor.
Defined.

(** ** Edge behaviour of the loop *)

Section Edges.

Variable P : Parser.
Variable a : args.
Variable w : world.

Lemma step_no_retry o st :
  (max_retry a <= 0)%Z -> idle st = true ->
  let r := worker_step P a o st in
  idle r.1 = true /\ count is_request r.2 = 0 /\ count is_put r.2 = 0
  /\ count is_task_done r.2 = 0.
Proof.
  intros Hm Hi. destruct st; try discriminate; cbn zeta;
    unfold worker_step, retry_loop; repeat case_match; simplify_eq; cbn; auto.
  apply Z.ltb_lt in H0. lia.
Qed.

Lemma exec_no_retry n : forall t st,
  (max_retry a <= 0)%Z -> idle st = true ->
  let r := worker_exec P a w t n st in
  idle r.1 = true /\ count is_request r.2 = 0 /\ count is_put r.2 = 0
  /\ count is_task_done r.2 = 0.
Proof.
  induction n as [|n IH]; intros t st Hm Hi; [cbn; auto|].
  cbn zeta. rewrite worker_exec_S. cbn zeta. cbn [fst snd].
  destruct (step_no_retry (w t) st Hm Hi) as (S1 & S2 & S3 & S4). cbn zeta in *.
  destruct (IH (S t) _ Hm S1) as (I1 & I2 & I3 & I4). cbn zeta in *.
  rewrite !count_app. repeat split; [exact I1|lia..].
Qed.

Lemma broken_get_spins n : forall t,
  (forall t', t <= t' -> quota_at w t' = false /\ exists e, o_get (w t') = GetRaise e) ->
  exists tr,
    worker_exec P a w t (2 * n) STop = (STop, tr)
    /\ count is_get tr = n /\ count is_sleep tr = 0 /\ count is_request tr = 0.
Proof.
  induction n as [|n IH]; intros t H; [exists []; cbn; auto|].
  replace (2 * S n) with (S (S (2 * n))) by lia.
  destruct (H t (le_n _)) as [Hq _]. destruct (H (S t) ltac:(lia)) as [_ [e He]].
  destruct (IH (S (S t))) as (tr & Hrun & H1 & H2 & H3).
  { intros t' Ht'. apply H. lia. }
  unfold quota_at in Hq.
  assert (S1 : worker_step P a (w t) STop = (SDequeue, []))
    by (cbn; rewrite Hq; reflexivity).
  assert (S2 : worker_step P a (w (S t)) SDequeue
               = (STop, [EvGet (queue_timeout a) (GetRaise e); EvLog ERROR MsgDequeueError]))
    by (cbn; rewrite He; reflexivity).
  rewrite worker_exec_S, S1. cbn zeta. cbn [fst snd].
  rewrite worker_exec_S, S2. cbn zeta. cbn [fst snd].
  rewrite Hrun. cbn [fst snd]. eexists. split; [reflexivity|].
  rewrite !count_app, H1, H2, H3. cbn. auto.
Qed.

Lemma step_exit_log o st :
  let r := worker_step P a o st in
  count is_exit_log r.2 + exited st = exited r.1
  /\ (exited st = 0 -> exited r.1 = 1 -> last r.2 = Some (EvLog INFO MsgThreadExit)).
Proof.
  destruct st; cbn zeta; unfold worker_step, retry_loop, next_item;
    repeat case_match; simplify_eq; cbn; split; try reflexivity; try discriminate;
    intros; try discriminate; reflexivity.
Qed.

Lemma exec_exit_log n : forall t st,
  let r := worker_exec P a w t n st in
  count is_exit_log r.2 + exited st = exited r.1.
Proof.
  induction n as [|n IH]; intros t st; [reflexivity|].
  cbn zeta. rewrite worker_exec_S. cbn zeta. cbn [fst snd]. rewrite count_app.
  destruct (step_exit_log (w t) st) as [H1 _].
  pose proof (IH (S t) (worker_step P a (w t) st).1) as H2. cbn zeta in *. lia.
Qed.

Lemma exec_exit_last n : forall t st,
  exited st = 0 -> exited (worker_exec P a w t n st).1 = 1 ->
  last (worker_exec P a w t n st).2 = Some (EvLog INFO MsgThreadExit).
Proof.
  induction n as [|n IH]; intros t st H0 H1; [cbn in H1; congruence|].
  rewrite worker_exec_snoc in *. cbn zeta in *. cbn [fst snd] in *.
  destruct (step_exit_log (w (t + n)) (worker_exec P a w t n st).1) as [_ S2].
  cbn zeta in S2.
  destruct (exited (worker_exec P a w t n st).1) as [|k] eqn:E.
  - rewrite last_app. rewrite (S2 eq_refl H1). reflexivity.
  - assert (Ht : terminal (worker_exec P a w t n st).1 = true)
      by (destruct (worker_exec P a w t n st).1; cbn in *; congruence).
    rewrite (terminal_step P a _ _ Ht). cbn [snd]. rewrite app_nil_r.
    apply IH; [exact H0|].
    destruct (worker_exec P a w t n st).1; cbn in *; congruence.
Qed.

Lemma step_sleeps o st :
  let r := worker_step P a o st in
  count is_sleep r.2 = count is_full_put r.2
  /\ Forall (fun e => is_sleep e = true -> e = EvSleep 1) r.2.
Proof.
  destruct st; cbn zeta; unfold worker_step, retry_loop, next_item;
    repeat case_match; simplify_eq; cbn; (split; [reflexivity|]);
    repeat constructor; cbn; try discriminate; auto.
Qed.

Lemma exec_sleeps n : forall t st,
  let r := worker_exec P a w t n st in
  count is_sleep r.2 = count is_full_put r.2
  /\ Forall (fun e => is_sleep e = true -> e = EvSleep 1) r.2.
Proof.
  induction n as [|n IH]; intros t st; [cbn; auto|].
  cbn zeta. rewrite worker_exec_S. cbn zeta. cbn [fst snd].
  destruct (step_sleeps (w t) st) as [S1 S2].
  destruct (IH (S t) (worker_step P a (w t) st).1) as [I1 I2]. cbn zeta in *.
  rewrite !count_app. split; [lia|apply Forall_app; auto].
Qed.

Variable bound : nat.
Hypothesis parse_bounded : forall r, length (items (parse P r)) <= bound.

Lemma step_occupancy o st :
  calm o -> idle st = false -> terminal st = false ->
  occupancy bound (worker_step P a o st).1 < occupancy bound st.
Proof.
  intros [Hq Hp] Hi Ht.
  destruct st as [| | |url retry|url retry x g|url retry x g|url retry g|r|e];
    try discriminate; unfold worker_step, retry_loop, next_item.
  - destruct (o_fetch o url) as [r|e].
    + pose proof (parse_bounded r) as Hb.
      destruct (parse P r); cbn in *; lia.
    + destruct (0 <? retry - 1)%Z eqn:E; cbn; [apply Z.ltb_lt in E|]; lia.
  - rewrite Hq. cbn. lia.
  - pose proof (Hp x) as Hx. destruct x; cbn in Hx; try rewrite Hx; cbn; lia.
  - rewrite Hq. destruct g; cbn; lia.
Qed.

Lemma exec_occupancy m : forall t st,
  (forall t', t <= t' -> calm (w t')) ->
  occupancy bound st <= m ->
  exists k, k <= m
    /\ (idle (worker_exec P a w t k st).1 = true
        \/ terminal (worker_exec P a w t k st).1 = true).
Proof.
  induction m as [|m IH]; intros t st Hc Hm.
  - exists 0. split; [lia|]. cbn.
    destruct st; cbn in *; auto; lia.
  - destruct (idle st) eqn:Hi; [exists 0; split; [lia|left; exact Hi]|].
    destruct (terminal st) eqn:Ht; [exists 0; split; [lia|right; exact Ht]|].
    pose proof (step_occupancy (w t) st (Hc t (le_n _)) Hi Ht) as Hs.
    destruct (IH (S t) (worker_step P a (w t) st).1) as (k & Hk & Hfree).
    { intros t' Ht'. apply Hc. lia. }
    { lia. }
    exists (S k). split; [lia|]. rewrite worker_exec_S. cbn zeta. cbn [fst]. exact Hfree.
Qed.

End Edges.

(** X3: with [max_retry <= 0] the body of [while retry > 0] never runs:
    the worker takes locators from the queue and drops each one at once,
    with no request, no put and no [task_done()], and never holds one. *)
Theorem no_retry_no_fetch P a w t n :
  (max_retry a <= 0)%Z ->
  idle (final_state (worker_exec P a w t n STop)) = true
  /\ count is_request (trace (worker_exec P a w t n STop)) = 0
  /\ count is_put (trace (worker_exec P a w t n STop)) = 0
  /\ count is_task_done (trace (worker_exec P a w t n STop)) = 0.
Proof. intros H. apply (exec_no_retry P a w n t STop H eq_refl). Qed.

Lemma no_retry_no_fetch_witness :
  count is_request (trace (worker_exec mixed_parser no_retry_args steady_world 0 9 STop)) = 0
  /\ count is_got (trace (worker_exec mixed_parser no_retry_args steady_world 0 9 STop)) = 4.
Proof.
  destruct (no_retry_no_fetch mixed_parser no_retry_args steady_world 0 9) as (_ & H & _).
  - cbn. lia.
  - split; [exact H|vm_compute; reflexivity].
Defined.

(** X4: an input queue whose [get] raises anything but [queue.Empty] keeps
    the worker going round its loop, one [get] every second tick, without a
    sleep and without ever leaving, even when "feeder_exited" is set: only
    the quota signal is looked at on that path. *)
Theorem broken_get_never_exits P a w t n :
  (forall t', t <= t' -> quota_at w t' = false /\ exists e, o_get (w t') = GetRaise e) ->
  exists tr,
    worker_exec P a w t (2 * n) STop = (STop, tr)
    /\ count is_get tr = n /\ count is_sleep tr = 0 /\ count is_request tr = 0.
Proof. apply broken_get_spins. Qed.

Lemma broken_get_never_exits_witness :
  feeder_exited_at broken_queue_world 0 = true
  /\ exists tr,
       worker_exec mixed_parser default_args broken_queue_world 0 (2 * 5) STop = (STop, tr)
       /\ count is_get tr = 5 /\ count is_sleep tr = 0 /\ count is_request tr = 0.
Proof.
  split; [reflexivity|].
  apply (broken_get_never_exits mixed_parser default_args broken_queue_world 0 5).
  intros t' _. split; [reflexivity|]. exists (Exc "OSError"). reflexivity.
Defined.

(** X5: the closing log line of [worker_exec] (line 118) is written once
    by a worker that leaves its loop by [break], as the last thing it does,
    and never by a worker that is still running or that an exception of
    [parse] has left. *)
Theorem exit_line_once P a w t n :
  count is_exit_log (trace (worker_exec P a w t n STop))
  = exited (final_state (worker_exec P a w t n STop))
  /\ (exited (final_state (worker_exec P a w t n STop)) = 1 ->
      last (trace (worker_exec P a w t n STop)) = Some (EvLog INFO MsgThreadExit))
  /\ (forall e, final_state (worker_exec P a w t n STop) = SCrashed e ->
      count is_exit_log (trace (worker_exec P a w t n STop)) = 0).
Proof.
  unfold trace, final_state.
  pose proof (exec_exit_log P a w n t STop) as H. cbn zeta in H. cbn [exited] in H.
  rewrite Nat.add_0_r in H. split; [exact H|]. split.
  - apply exec_exit_last. reflexivity.
  - intros e He. rewrite H, He. reflexivity.
Qed.

Lemma exit_line_once_witness :
  last (trace (worker_exec mixed_parser default_args (quota_world 0) 0 3 STop))
    = Some (EvLog INFO MsgThreadExit)
  /\ count is_exit_log (trace (worker_exec base_parser default_args steady_world 0 5 STop)) = 0.
Proof.
  destruct (exit_line_once mixed_parser default_args (quota_world 0) 0 3) as (_ & H2 & _).
  destruct (exit_line_once base_parser default_args steady_world 0 5) as (_ & _ & H3).
  split; [apply H2; reflexivity|].
  apply (H3 (Exc "NotImplementedError")). reflexivity.
Defined.

(** X6: the worker sleeps once, for one second, after each put that met a
    full queue, and at no other time: failed fetches are retried at once
    and a timed-out [get] is followed by the next one without a pause. *)
Theorem sleeps_only_on_full P a w t n st :
  count is_sleep (trace (worker_exec P a w t n st))
  = count is_full_put (trace (worker_exec P a w t n st))
  /\ Forall (fun e => is_sleep e = true -> e = EvSleep 1)
       (trace (worker_exec P a w t n st)).
Proof. apply (exec_sleeps P a w n t st). Qed.

(** X7: while the quota signal is unset and every put is accepted, a
    locator keeps the worker for a bounded number of ticks: from any
    program point the worker is back at the top of its loop (or has
    stopped) within the remaining fetch attempts plus three ticks per item
    that [parse] can yield. *)
Theorem locator_occupancy_bounded P a w t st bound :
  (forall r, length (items (parse P r)) <= bound) ->
  (forall t', t <= t' -> calm (w t')) ->
  exists k, k <= occupancy bound st
    /\ (idle (final_state (worker_exec P a w t k st)) = true
        \/ terminal (final_state (worker_exec P a w t k st)) = true).
Proof.
  intros Hb Hc. apply (exec_occupancy P a w bound Hb (occupancy bound st) t st Hc).
  lia.
Qed.

Lemma locator_occupancy_bounded_witness :
  exists k, k <= 12
    /\ (idle (final_state (worker_exec mixed_parser default_args (failing_until 3) 1 k
                             (SFetch sample_url 3))) = true
        \/ terminal (final_state (worker_exec mixed_parser default_args (failing_until 3) 1 k
                                    (SFetch sample_url 3))) = true).
Proof.
  apply (locator_occupancy_bounded mixed_parser default_args (failing_until 3) 1
           (SFetch sample_url 3) 3).
  - intros r. cbn. lia.
  - intros t' _. apply failing_until_calm.
Defined.

(** X8: on the pool, the unfinished count of the input queue and its
    length drift apart by one for every locator taken and by one back for
    every [task_done()]; a locator that is given up, dropped or lost to an
    exception of [parse] therefore leaves the count above the length for
    good, and when no fetch answers the gap grows by every locator taken. *)
Theorem abandoned_locators_stay_unfinished P a w t n p :
  (unfinished (pool_exec P a w t n (STop, p)).1.2
   - Z.of_nat (length (in_queue (pool_exec P a w t n (STop, p)).1.2))
   = unfinished p - Z.of_nat (length (in_queue p))
     + Z.of_nat (length (dequeued (pool_exec P a w t n (STop, p)).2))
     - Z.of_nat (count is_task_done (pool_exec P a w t n (STop, p)).2))%Z
  /\ (count is_fetch_ok (pool_exec P a w t n (STop, p)).2 = 0 ->
      (unfinished (pool_exec P a w t n (STop, p)).1.2
       - Z.of_nat (length (in_queue (pool_exec P a w t n (STop, p)).1.2))
       = unfinished p - Z.of_nat (length (in_queue p))
         + Z.of_nat (length (dequeued (pool_exec P a w t n (STop, p)).2)))%Z).
Proof.
  destruct (pool_exec_unfinished P a w n t STop p) as [Hu _].
  destruct (pool_exec_queue P a w n t STop p I) as [Hq _]. cbn zeta in *.
  apply (f_equal (@length string)) in Hq. rewrite !length_app in Hq.
  split; [lia|].
  intros Hf. destruct (pool_exec_worker P a w STop p t n) as [E1 E2]. cbn zeta in *.
  pose proof (exec_task_done P a (fun t' =>
    pool_obs (w t') (pool_exec P a w t (t' - t) (STop, p)).1.2) n t STop) as Ht.
  cbn zeta in Ht. rewrite <- E2 in Ht. cbn [holds_fetched] in Ht. lia.
Qed.

Lemma abandoned_locators_stay_unfinished_witness :
  (unfinished (pool_exec mixed_parser default_args (failing_until 100) 0 12
                 (STop, sample_pool)).1.2 = 2)%Z
  /\ in_queue (pool_exec mixed_parser default_args (failing_until 100) 0 12
                 (STop, sample_pool)).1.2 = [].
Proof.
  destruct (abandoned_locators_stay_unfinished mixed_parser default_args (failing_until 100)
              0 12 sample_pool) as [_ H].
  assert (E : in_queue (pool_exec mixed_parser default_args (failing_until 100) 0 12
                          (STop, sample_pool)).1.2 = []) by (vm_compute; reflexivity).
  split; [|exact E].
  specialize (H ltac:(vm_compute; reflexivity)). rewrite E in H.
  assert (D : length (dequeued (pool_exec mixed_parser default_args (failing_until 100) 0 12
                          (STop, sample_pool)).2) = 2) by (vm_compute; reflexivity).
  rewrite D in H. change (unfinished sample_pool) with 2%Z in H.
  change (length (in_queue sample_pool)) with 2 in H.
  change (length (@nil string)) with 0 in H. lia.
Defined.

(** * Further properties of the crawler *)

(** ** The storage backend *)

(** The argument dict after the default of line 102-103. *)
Lemma set_storage_arg env d :
  arg_after (set_storage env (ADict d))
  = ADict match d !! "backend", d !! "root_dir" with
          | None, Some _ => <["backend" := PStr "FileSystem"]> d
          | _, _ => d
          end.
Proof. unfold set_storage. repeat case_match; reflexivity. Qed.

(** X9: when [set_storage] gets as far as calling the backend, the keyword
    arguments are the caller's dict without its "backend" entry: that key is
    absent and every other key has the caller's value.  The key is removed
    from a copy: the caller's dict still has it afterwards. *)
Theorem storage_kwargs env d c kwargs :
  outcome (set_storage env (ADict d)) = Stored (Constructed c kwargs) ->
  kwargs !! "backend" = None
  /\ (forall k, k <> "backend" -> kwargs !! k = d !! k)
  /\ exists d' name,
       arg_after (set_storage env (ADict d)) = ADict d'
       /\ d' !! "backend" = Some (PStr name)
       /\ kwargs = delete "backend" d'.
Proof.
  rewrite set_storage_arg. unfold set_storage.
  destruct (d !! "backend") as [b|] eqn:Hb; [|destruct (d !! "root_dir") as [rd|] eqn:Hr].
  - rewrite Hb. destruct b as [?|name|?]; cbn; try discriminate.
    destruct (package_attr env name); [|destruct (import_module env name)]; cbn;
      intros H; simplify_eq; (split; [apply lookup_delete_eq|]);
      (split; [intros k Hk; apply lookup_delete_ne; congruence|]);
      exists d, name; auto.
  - rewrite lookup_insert_eq.
    destruct (package_attr env "FileSystem"); [|destruct (import_module env "FileSystem")];
      cbn; intros H; simplify_eq; (split; [apply lookup_delete_eq|]);
      (split; [intros k Hk; rewrite lookup_delete_ne, lookup_insert_ne by congruence;
               reflexivity|]);
      eexists _, "FileSystem"; (split; [reflexivity|]);
      (split; [apply lookup_insert_eq|reflexivity]).
  - rewrite Hb. cbn. discriminate.
Qed.

Lemma storage_kwargs_witness :
  outcome (set_storage sample_resolver (ADict default_storage))
  = Stored (Constructed (PackageAttr "FileSystem") (delete "backend" default_storage))
  /\ delete "backend" default_storage !! "backend" = None
  /\ delete "backend" default_storage !! "root_dir" = Some (PStr "images").
Proof.
  assert (E : outcome (set_storage sample_resolver (ADict default_storage))
              = Stored (Constructed (PackageAttr "FileSystem")
                          (delete "backend" default_storage)))
    by (vm_compute; reflexivity).
  destruct (storage_kwargs sample_resolver default_storage _ _ E) as (H1 & H2 & _).
  split; [exact E|]. split; [exact H1|].
  rewrite (H2 "root_dir") by discriminate. reflexivity.
Defined.

(** X10: [set_storage] changes the caller's object in one way only: a
    dict that has "root_dir" but no "backend" gains "backend" =
    "FileSystem".  No entry is ever removed or changed, a dict that names
    its backend is left as it is, whatever the outcome, and so is anything
    that is not a dict. *)
Theorem storage_argument_kept env storage :
  match storage with
  | ADict d =>
      exists d', arg_after (set_storage env storage) = ADict d'
        /\ d ⊆ d'
        /\ (is_Some (d !! "backend") \/ d !! "root_dir" = None -> d' = d)
        /\ (d !! "backend" = None -> is_Some (d !! "root_dir") ->
            d' = <["backend" := PStr "FileSystem"]> d)
  | _ => arg_after (set_storage env storage) = storage
  end.
Proof.
  destruct storage as [obj|d|repr]; [reflexivity| |reflexivity].
  rewrite set_storage_arg. eexists. split; [reflexivity|].
  destruct (d !! "backend") as [b|] eqn:Hb; [|destruct (d !! "root_dir") as [rd|] eqn:Hr].
  - split; [reflexivity|]. split; [reflexivity|]. discriminate.
  - split; [apply insert_subseteq; exact Hb|]. split; [|reflexivity].
    intros [[x Hx]|Hx]; discriminate.
  - split; [reflexivity|]. split; [reflexivity|]. intros _ [x Hx]. discriminate.
Qed.

Lemma storage_argument_kept_witness :
  arg_after (set_storage sample_resolver (ADict default_storage)) = ADict default_storage
  /\ arg_after (set_storage sample_resolver (ADict {["root_dir" := PStr "out"]}))
     = ADict (<["backend" := PStr "FileSystem"]> {["root_dir" := PStr "out"]}).
Proof.
  destruct (storage_argument_kept sample_resolver (ADict default_storage))
    as (d1 & E1 & _ & K1 & _).
  destruct (storage_argument_kept sample_resolver (ADict {["root_dir" := PStr "out"]}))
    as (d2 & E2 & _ & _ & K2).
  split.
  - rewrite E1. f_equal. apply K1. left. eexists. vm_compute. reflexivity.
  - rewrite E2. f_equal. apply K2; [vm_compute; reflexivity|].
    eexists. vm_compute. reflexivity.
Defined.

(** X11: a dict with "root_dir" and no "backend" is handled exactly as the
    same dict with "backend" = "FileSystem" spelled out, in outcome, in the
    state it leaves the caller's dict in and in what is logged; so calling
    [set_storage] again with the dict it has completed changes nothing. *)
Theorem storage_default_backend env d :
  d !! "backend" = None -> is_Some (d !! "root_dir") ->
  set_storage env (ADict d)
  = set_storage env (ADict (<["backend" := PStr "FileSystem"]> d))
  /\ forall d', arg_after (set_storage env (ADict d)) = ADict d' ->
       set_storage env (ADict d') = set_storage env (ADict d).
Proof.
  intros Hb [rd Hr].
  assert (E : set_storage env (ADict d)
              = set_storage env (ADict (<["backend" := PStr "FileSystem"]> d))).
  { unfold set_storage. rewrite Hb, Hr, !lookup_insert_eq. reflexivity. }
  split; [exact E|].
  intros d' Hd'. rewrite set_storage_arg, Hb, Hr in Hd'. simplify_eq. symmetry. exact E.
Qed.

Lemma storage_default_backend_witness :
  set_storage sample_resolver (ADict {["root_dir" := PStr "out"]})
  = set_storage sample_resolver
      (ADict (<["backend" := PStr "FileSystem"]> {["root_dir" := PStr "out"]})).
Proof.
  apply (storage_default_backend sample_resolver {["root_dir" := PStr "out"]}).
  - vm_compute. reflexivity.
  - eexists. vm_compute. reflexivity.
Defined.

(** X12: how [set_storage] fails.  It ends the process exactly when the
    backend name of the dict resolves neither as an attribute of the
    storage package nor as a module, and exactly then it logs that name
    first.  A dict with neither "backend" nor "root_dir" raises [KeyError]
    and a backend that is not a string raises [TypeError], both before any
    name is resolved, and so does an argument that is neither a storage
    object nor a dict. *)
Theorem storage_failure_modes env storage :
  (outcome (set_storage env storage) = SystemExit
   <-> exists d name,
         arg_after (set_storage env storage) = ADict d
         /\ d !! "backend" = Some (PStr name)
         /\ package_attr env name = None
         /\ import_module env name = ImportFails)
  /\ (outcome (set_storage env storage) = SystemExit
      <-> is_Some (error_log (set_storage env storage)))
  /\ (forall d, storage = ADict d -> d !! "backend" = None -> d !! "root_dir" = None ->
        set_storage env storage
        = {| outcome := StorageRaises (Exc "KeyError");
             arg_after := ADict d; error_log := None |})
  /\ (forall d v, storage = ADict d -> d !! "backend" = Some v ->
        (forall name, v <> PStr name) ->
        set_storage env storage
        = {| outcome := StorageRaises (Exc "TypeError");
             arg_after := ADict d; error_log := None |})
  /\ (forall repr, storage = AOther repr ->
        set_storage env storage
        = {| outcome := StorageRaises (Exc "TypeError");
             arg_after := storage; error_log := None |}).
Proof.
  split; [|split; [|split; [|split]]].
  - destruct storage as [obj|d|repr].
    + cbn. split; [discriminate|]. intros (d & name & H & _). discriminate.
    + rewrite set_storage_arg. unfold set_storage.
      set (d1 := match d !! "backend", d !! "root_dir" with
                 | None, Some _ => <["backend" := PStr "FileSystem"]> d
                 | _, _ => d
                 end).
      destruct (d1 !! "backend") as [[?|name|?]|] eqn:Hb; cbn;
        try (split; [discriminate|]; intros (d' & name' & H & Hb' & _); simplify_eq;
             congruence).
      destruct (package_attr env name) eqn:Hp; [|destruct (import_module env name) eqn:Hi];
        cbn; try (split; [discriminate|];
                  intros (d' & name' & H & Hb' & Hp' & Hi'); simplify_eq; congruence).
      split; [|reflexivity]. intros _. exists d1, name. auto.
    + cbn. split; [discriminate|]. intros (d & name & H & _). discriminate.
  - destruct storage as [obj|d|repr]; unfold set_storage; repeat case_match; cbn;
      split; intros Hx;
      first [discriminate | reflexivity | (apply is_Some_None in Hx; contradiction)
            | eexists; reflexivity].
  - intros d -> Hb Hr. unfold set_storage. rewrite Hb, Hr, Hb. reflexivity.
  - intros d v -> Hb Hv. unfold set_storage. rewrite Hb. cbn. rewrite Hb.
    destruct v as [?|name|?]; [reflexivity|exfalso; apply (Hv name); reflexivity|reflexivity].
  - intros repr ->. reflexivity.
Qed.

Lemma storage_failure_modes_witness :
  outcome (set_storage sample_resolver (ADict {["backend" := PStr "S3Storage"]})) = SystemExit
  /\ set_storage sample_resolver (ADict ∅)
     = {| outcome := StorageRaises (Exc "KeyError"); arg_after := ADict ∅; error_log := None |}
  /\ set_storage sample_resolver (ADict {["backend" := POther "42"]})
     = {| outcome := StorageRaises (Exc "TypeError");
          arg_after := ADict {["backend" := POther "42"]}; error_log := None |}
  /\ set_storage sample_resolver (AOther "images/")
     = {| outcome := StorageRaises (Exc "TypeError");
          arg_after := AOther "images/"; error_log := None |}.
Proof.
  destruct (storage_failure_modes sample_resolver (ADict {["backend" := PStr "S3Storage"]}))
    as ([_ H1] & _).
  destruct (storage_failure_modes sample_resolver (ADict ∅)) as (_ & _ & H3 & _).
  destruct (storage_failure_modes sample_resolver (ADict {["backend" := POther "42"]}))
    as (_ & _ & _ & H4 & _).
  destruct (storage_failure_modes sample_resolver (AOther "images/")) as (_ & _ & _ & _ & H5).
  split; [|split; [|split]].
  - apply H1. exists {["backend" := PStr "S3Storage"]}, "S3Storage".
    repeat split; vm_compute; reflexivity.
  - apply (H3 ∅); reflexivity.
  - apply (H4 _ (POther "42")); [reflexivity|vm_compute; reflexivity|discriminate].
  - apply (H5 "images/"). reflexivity.
Defined.

(** ** Session, proxy pool and construction *)

(** X13: [set_session] checks the type of [headers] before it touches
    anything: a value that is neither [None] nor a dict raises [TypeError]
    and leaves the crawler as it was, whether or not a proxy pool is set,
    while a call before any proxy pool is set raises [AttributeError].
    Otherwise the session is built over the proxy pool in place at that
    moment and keeps it: a pool set afterwards does not reach the session.
    The browser "User-Agent" is supplied only when [headers] is [None]; a
    dict of headers is used as given. *)
Theorem session_built_on_current_pool c pool h repr :
  set_session (HOther repr) c = Raises (Exc "TypeError") c
  /\ (c_proxy_pool c = None ->
      set_session HNone c = Raises (Exc "AttributeError") c
      /\ set_session (HDict h) c = Raises (Exc "AttributeError") c)
  /\ set_session (HDict h) (set_proxy_pool pool c)
     = Done (with_session {| s_pool := default FreshPool pool; s_headers := h |}
               (set_proxy_pool pool c))
  /\ set_session HNone (set_proxy_pool pool c)
     = Done (with_session {| s_pool := default FreshPool pool; s_headers := default_headers |}
               (set_proxy_pool pool c))
  /\ (forall headers c' pool', set_session headers c = Done c' ->
        c_session (set_proxy_pool pool' c') = c_session c'
        /\ exists s, c_session c' = Some s /\ c_proxy_pool c = Some (s_pool s)).
Proof.
  split; [reflexivity|]. split; [|split; [reflexivity|split; [reflexivity|]]].
  - intros H. unfold set_session. rewrite H. split; reflexivity.
  - intros headers c' pool' H. split.
    + reflexivity.
    + unfold set_session in H.
      destruct headers; try discriminate; destruct (c_proxy_pool c) as [pp|];
        try discriminate; injection H as <-; eexists; split; reflexivity.
Qed.

Lemma session_built_on_current_pool_witness :
  set_session HNone blank = Raises (Exc "AttributeError") blank
  /\ c_session (set_proxy_pool (Some (GivenPool "corp"))
                  (with_session {| s_pool := FreshPool; s_headers := default_headers |}
                     (set_proxy_pool None blank)))
     = Some {| s_pool := FreshPool; s_headers := default_headers |}.
Proof.
  destruct (session_built_on_current_pool blank None [] "x") as (_ & H2 & _).
  destruct (session_built_on_current_pool (set_proxy_pool None blank) None [] "x")
    as (_ & _ & _ & _ & H5).
  split; [apply H2; reflexivity|].
  destruct (H5 HNone _ (Some (GivenPool "corp")) eq_refl) as [E _]. exact E.
Defined.

Lemma init_store env cls ft pt dt storage lvl ef ep ed :
  init env cls ft pt dt storage lvl ef ep ed
  = and_then (store env cls storage (prepared lvl)) (build cls ft pt dt ef ep ed).
Proof. reflexivity. Qed.

Lemma store_binds env cls storage c s :
  binds env cls storage s -> store env cls storage c = Done (with_storage s c).
Proof.
  intros [Ho Hc]. unfold store. rewrite Ho. destruct s as [obj|b kw]; [reflexivity|].
  rewrite Hc. reflexivity.
Qed.

Lemma store_done env cls storage c c' :
  store env cls storage c = Done c' ->
  exists s, binds env cls storage s /\ c' = with_storage s c.
Proof.
  unfold store, binds.
  destruct (outcome (set_storage env storage)) as [[obj|b kw]|e|]; intros H.
  - simplify_eq. eexists. split; [split; [reflexivity|exact I]|reflexivity].
  - destruct (call cls b kw) eqn:Ec; [discriminate|]. simplify_eq.
    eexists. split; [split; [reflexivity|exact Ec]|reflexivity].
  - discriminate.
  - destruct (c_logger c); discriminate.
Qed.

(** X14: [Crawler.__init__] runs its steps in order and stops at the first
    that fails.  When [set_storage] raises, ends the process, finds a
    module where it wants a class, or calls a backend class that raises,
    that is how [__init__] ends, with the logger, the proxy pool, the
    session and the signals in place and neither a storage nor a pool.  When
    the storage is bound, the pools are built feeder, parser, downloader: a
    constructor that raises ends [__init__] with the pools built before it
    on the object, not yet connected; when all three return the crawler is
    complete, the pools chained feeder to parser to downloader with their
    thread numbers and extra arguments ([{}] for [None]).  [__init__]
    succeeds in no other way.  With the base [Parser] as parser class, any
    extra parser argument makes [__init__] raise [TypeError] after the
    feeder is built.  A parser worker that reads the registry of a new
    crawler passes the quota check and keeps waiting on an empty queue. *)
Theorem init_stops_at_first_failure env cls ft pt dt storage lvl ef ep ed :
  (forall e, outcome (set_storage env storage) = StorageRaises e ->
     init env cls ft pt dt storage lvl ef ep ed = Raises e (prepared lvl))
  /\ (outcome (set_storage env storage) = SystemExit ->
      init env cls ft pt dt storage lvl ef ep ed = Exits (prepared lvl))
  /\ (forall m kwargs,
        outcome (set_storage env storage) = Stored (Constructed (ModuleObject m) kwargs) ->
        init env cls ft pt dt storage lvl ef ep ed
        = Raises (Exc "TypeError") (prepared lvl))
  /\ (forall attr kwargs e,
        outcome (set_storage env storage) = Stored (Constructed (PackageAttr attr) kwargs) ->
        call_backend cls attr kwargs = Some e ->
        init env cls ft pt dt storage lvl ef ep ed = Raises e (prepared lvl))
  /\ (forall s, binds env cls storage s ->
        match new_pool cls feeder ft (default [] ef),
              new_pool cls parser pt (default [] ep),
              new_pool cls downloader dt (default [] ed) with
        | Some e, _, _ =>
            init env cls ft pt dt storage lvl ef ep ed
            = Raises e (with_storage s (prepared lvl))
        | None, Some e, _ =>
            init env cls ft pt dt storage lvl ef ep ed
            = Raises e (with_pools (Some (new_component ft ef)) None None
                          (with_storage s (prepared lvl)))
        | None, None, Some e =>
            init env cls ft pt dt storage lvl ef ep ed
            = Raises e (with_pools (Some (new_component ft ef))
                          (Some (new_component pt ep)) None
                          (with_storage s (prepared lvl)))
        | None, None, None =>
            init env cls ft pt dt storage lvl ef ep ed
            = Done {| c_logger := Some lvl;
                      c_proxy_pool := Some FreshPool;
                      c_session := Some {| s_pool := FreshPool;
                                           s_headers := default_headers |};
                      c_signal := Some Signal.init;
                      c_storage := Some s;
                      c_feeder := Some {| threads := ft; extra := default [] ef;
                                          next_pool := Some parser |};
                      c_parser := Some {| threads := pt; extra := default [] ep;
                                          next_pool := Some downloader |};
                      c_downloader := Some {| threads := dt; extra := default [] ed;
                                              next_pool := None |} |}
        end)
  /\ (forall c, init env cls ft pt dt storage lvl ef ep ed = Done c ->
        exists s, binds env cls storage s
          /\ new_pool cls feeder ft (default [] ef) = None
          /\ new_pool cls parser pt (default [] ep) = None
          /\ new_pool cls downloader dt (default [] ed) = None)
  /\ (forall s kwargs,
        (forall n kw, parser_rejects kw = true ->
           new_pool cls parser n kw = Some (Exc "TypeError")) ->
        binds env cls storage s ->
        new_pool cls feeder ft (default [] ef) = None ->
        ep = Some kwargs -> kwargs <> [] ->
        init env cls ft pt dt storage lvl ef ep ed
        = Raises (Exc "TypeError")
            (with_pools (Some (new_component ft ef)) None None
               (with_storage s (prepared lvl))))
  /\ (forall c sg P a o,
        init env cls ft pt dt storage lvl ef ep ed = Done c ->
        c_signal c = Some sg -> o_signal o = sg ->
        worker_step P a o STop = (SDequeue, [])
        /\ worker_step P a o SEmpty = (STop, [EvLog INFO MsgWaiting])
        /\ Signal.reset sg = sg).
Proof.
  rewrite init_store.
  assert (Hb : forall s, binds env cls storage s ->
            and_then (store env cls storage (prepared lvl)) (build cls ft pt dt ef ep ed)
            = build cls ft pt dt ef ep ed (with_storage s (prepared lvl))).
  { intros s Hs. rewrite (store_binds _ _ _ _ _ Hs). reflexivity. }
  split; [intros e H; unfold store; rewrite H; reflexivity|].
  split; [intros H; unfold store; rewrite H; reflexivity|].
  split; [intros m kw H; unfold store; rewrite H; reflexivity|].
  split; [intros attr kw e H Hc; unfold store; rewrite H; cbn; rewrite Hc; reflexivity|].
  split.
  { intros s Hs. rewrite (Hb s Hs). unfold build. cbn.
    destruct (new_pool cls feeder ft (default [] ef)); [reflexivity|].
    destruct (new_pool cls parser pt (default [] ep)); [reflexivity|].
    destruct (new_pool cls downloader dt (default [] ed)); reflexivity. }
  split.
  { intros c H.
    destruct (store env cls storage (prepared lvl)) as [c1|e c1|c1] eqn:Es;
      cbn in H; try discriminate.
    destruct (store_done _ _ _ _ _ Es) as (s & Hs & ->).
    exists s. split; [exact Hs|]. unfold build in H. cbn in H.
    destruct (new_pool cls feeder ft (default [] ef)); [discriminate|].
    destruct (new_pool cls parser pt (default [] ep)); [discriminate|].
    destruct (new_pool cls downloader dt (default [] ed)); [discriminate|]. auto. }
  split.
  { intros s kwargs Hp Hs Hf -> Hk. rewrite (Hb s Hs). unfold build. cbn.
    rewrite Hf, Hp; [reflexivity|]. destruct kwargs; [congruence|reflexivity]. }
  intros c sg P a o H Hsg Ho.
  destruct (store env cls storage (prepared lvl)) as [c1|e c1|c1] eqn:Es;
    cbn in H; try discriminate.
  destruct (store_done _ _ _ _ _ Es) as (s & Hs & ->). unfold build in H. cbn in H.
  destruct (new_pool cls feeder ft (default [] ef)); [discriminate|].
  destruct (new_pool cls parser pt (default [] ep)); [discriminate|].
  destruct (new_pool cls downloader dt (default [] ed)); [discriminate|].
  injection H as <-. cbn in Hsg. injection Hsg as <-.
  unfold worker_step. rewrite Ho. repeat split; reflexivity.
Qed.

(** The default crawler is complete; a storage that is neither a backend
    nor a dict, a backend named by its module, a [FileSystem] without its
    "root_dir" and an extra parser argument each end [__init__] early. *)
Lemma init_stops_at_first_failure_witness :
  (exists c, init sample_resolver sample_classes 1 1 1 (ADict default_storage) 20
               None None None = Done c
     /\ c_parser c = Some {| threads := 1; extra := []; next_pool := Some downloader |})
  /\ init sample_resolver sample_classes 1 1 1 (AOther "images/") 20 None None None
     = Raises (Exc "TypeError") (prepared 20)
  /\ init sample_resolver sample_classes 1 1 1
       (ADict {["backend" := PStr "mypkg.backends"]}) 20 None None None
     = Raises (Exc "TypeError") (prepared 20)
  /\ init sample_resolver sample_classes 1 1 1
       (ADict {["backend" := PStr "FileSystem"]}) 20 None None None
     = Raises (Exc "TypeError") (prepared 20)
  /\ (exists c, init sample_resolver sample_classes 1 1 1 (ADict default_storage) 20
                  None (Some [("max_retry", "3")]) None
                = Raises (Exc "TypeError") c
        /\ c_feeder c = Some {| threads := 1; extra := []; next_pool := None |}
        /\ c_parser c = None /\ c_downloader c = None)
  /\ worker_step mixed_parser default_args (steady_world 0) STop = (SDequeue, []).
Proof.
  assert (Hb : binds sample_resolver sample_classes (ADict default_storage)
                 (Constructed (PackageAttr "FileSystem") (delete "backend" default_storage)))
    by (split; vm_compute; reflexivity).
  destruct (init_stops_at_first_failure sample_resolver sample_classes 1 1 1
              (ADict default_storage) 20 None None None)
    as (_ & _ & _ & _ & H5 & H6 & _ & H8).
  destruct (init_stops_at_first_failure sample_resolver sample_classes 1 1 1
              (AOther "images/") 20 None None None) as (H1 & _).
  destruct (init_stops_at_first_failure sample_resolver sample_classes 1 1 1
              (ADict {["backend" := PStr "mypkg.backends"]}) 20 None None None)
    as (_ & _ & H3 & _).
  destruct (init_stops_at_first_failure sample_resolver sample_classes 1 1 1
              (ADict {["backend" := PStr "FileSystem"]}) 20 None None None)
    as (_ & _ & _ & H4 & _).
  destruct (init_stops_at_first_failure sample_resolver sample_classes 1 1 1
              (ADict default_storage) 20 None (Some [("max_retry", "3")]) None)
    as (_ & _ & _ & _ & _ & _ & H7 & _).
  pose proof (H5 _ Hb) as Hd. cbn [sample_classes new_pool default parser_rejects] in Hd.
  split; [eexists; split; [exact Hd|reflexivity]|].
  split; [apply H1; reflexivity|].
  split; [apply (H3 "mypkg.backends" ∅); vm_compute; reflexivity|].
  split; [apply (H4 "FileSystem" ∅); vm_compute; reflexivity|].
  split.
  - eexists. split.
    + refine (H7 (Constructed (PackageAttr "FileSystem") (delete "backend" default_storage))
                [("max_retry", "3")] _ Hb eq_refl eq_refl _); [|discriminate].
      intros n kw Hk. cbn. rewrite Hk. reflexivity.
    + cbn. auto.
  - destruct (H6 _ Hd) as (s & _ & _).
    destruct (H8 _ Signal.init mixed_parser default_args
                {| o_signal := Signal.init; o_get := GetItem sample_url;
                   o_fetch := fun _ => FetchOk "body"; o_output := fun _ => PutOk;
                   o_input := fun _ => PutOk |} Hd eq_refl eq_refl) as (W & _).
    vm_compute. reflexivity.
Defined.

(** ** What a crawl writes and how often it asks *)

Lemma ccount_app f tr1 tr2 : ccount f (tr1 ++ tr2) = ccount f tr1 + ccount f tr2.
Proof. induction tr1 as [|e tr1 IH]; simpl; [reflexivity|]. rewrite IH. lia. Qed.

Lemma poll_once_writes alive : Forall exit_flag_write (poll_once alive).
Proof.
  unfold poll_once, check_alive. destruct (alive feeder), (alive parser); cbn [app];
    repeat (constructor; [cbn; first [exact I | split; [reflexivity|auto]]|]);
    constructor.
Qed.

Lemma poll_writes polls :
  Forall exit_flag_write (poll polls).1
  /\ ccount is_creset (poll polls).1 = 0.
Proof.
  induction polls as [|alive rest [IH1 IH2]]; cbn [poll]; [split; [constructor|reflexivity]|].
  assert (Hr : ccount is_creset (poll_once alive) = 0)
    by (unfold poll_once, check_alive; destruct (alive feeder), (alive parser); reflexivity).
  destruct (alive downloader).
  - destruct (poll rest) as [evs done]. cbn [fst] in *. split.
    + apply Forall_app. split; [apply poll_once_writes|]. constructor; [exact I|exact IH1].
    + rewrite ccount_app, Hr. cbn. exact IH2.
  - cbn [fst]. split; [apply poll_once_writes|exact Hr].
Qed.

Lemma poll_counts polls :
  ccount (asks feeder) (poll polls).1 = ccount (asks downloader) (poll polls).1
  /\ ccount (asks parser) (poll polls).1 = ccount (asks downloader) (poll polls).1
  /\ ccount is_csleep (poll polls).1 + (if (poll polls).2 then 1 else 0)
     = ccount (asks downloader) (poll polls).1
  /\ ccount (asks downloader) (poll polls).1 <= length polls.
Proof.
  induction polls as [|alive rest (I1 & I2 & I3 & I4)]; cbn [poll]; [cbn; auto|].
  assert (H1 : forall s, ccount (asks s) (poll_once alive) = 1)
    by (intros []; unfold poll_once, check_alive;
        destruct (alive feeder), (alive parser); reflexivity).
  assert (H2 : ccount is_csleep (poll_once alive) = 0)
    by (unfold poll_once, check_alive; destruct (alive feeder), (alive parser); reflexivity).
  destruct (alive downloader).
  - destruct (poll rest) as [evs done]. cbn [fst snd length] in *.
    rewrite !ccount_app, !H1, H2. cbn [ccount asks is_csleep]. repeat split; lia.
  - cbn [fst snd length]. rewrite !H1, H2. repeat split; lia.
Qed.

(** X15: the only things [crawl] writes to the registry are the one reset
    at its very start and the flags "feeder_exited" and "parser_exited",
    always to [True]: it never clears a flag after the reset and never
    touches "reach_max_num", which reads false after the writes of any
    crawl, returned or still polling. *)
Theorem crawl_signal_writes thread_num fk pk dk polls empty :
  Forall exit_flag_write (crawl thread_num fk pk dk polls empty).1
  /\ ccount is_creset (crawl thread_num fk pk dk polls empty).1 = 1
  /\ head (crawl thread_num fk pk dk polls empty).1 = Some CSignalReset
  /\ (forall s, Signal.get (foldl signal_write s (crawl thread_num fk pk dk polls empty).1)
                  "reach_max_num" = false).
Proof.
  unfold crawl. destruct (poll_writes polls) as [Hw Hr].
  pose proof (poll_left polls) as Hleft. pose proof (poll_pending polls) as [_ Hpend].
  destruct (poll polls) as [evs done]. cbn [fst snd] in *.
  assert (Hd : Forall exit_flag_write (if done then drain empty ++ [CLog MsgCrawlDone] else [])
               /\ ccount is_creset (if done then drain empty ++ [CLog MsgCrawlDone] else []) = 0).
  { destruct done; [|split; [constructor|reflexivity]].
    unfold drain, clear_if_nonempty.
    destruct (empty feeder), (empty parser), (empty downloader);
      (split; [|reflexivity]); cbn [app];
      repeat (constructor; [exact I|]); constructor. }
  destruct Hd as [Hd1 Hd2].
  split; [|split; [|split]].
  - apply Forall_app. split; [|apply Forall_app; split; assumption].
    unfold startup. repeat (constructor; [exact I|]). constructor.
  - rewrite !ccount_app, Hr, Hd2. reflexivity.
  - reflexivity.
  - intros s. rewrite !foldl_app.
    set (s0 := foldl signal_write s (startup thread_num fk pk dk)).
    assert (H0 : Signal.get s0 "reach_max_num" = false)
      by (unfold s0; cbn; apply signal_get_reset).
    destruct done.
    + destruct (Hleft eq_refl) as (pre & last & post & _ & _ & _ & ->).
      rewrite signal_drain, foldl_app.
      destruct (signal_polls pre s0) as (_ & _ & P3). cbn zeta in P3.
      destruct (signal_poll_once
                  (foldl signal_write s0
                     (flat_map (fun alive => poll_once alive ++ [CSleep 1]) pre)) last)
        as (_ & _ & L3). cbn zeta in L3.
      rewrite L3, P3. exact H0.
    + rewrite (Hpend eq_refl). cbn [foldl].
      destruct (signal_polls polls s0) as (_ & _ & P3). cbn zeta in P3.
      rewrite P3. exact H0.
Qed.

(** X16: in every turn of its poll loop [crawl] asks each of the three
    pools once, in at most as many turns as there are answers, and it
    sleeps between turns only: a crawl that has returned has slept one time
    less than it has polled, one that is still polling as often. *)
Theorem crawl_poll_counts thread_num fk pk dk polls empty :
  ccount (asks feeder) (crawl thread_num fk pk dk polls empty).1
  = ccount (asks downloader) (crawl thread_num fk pk dk polls empty).1
  /\ ccount (asks parser) (crawl thread_num fk pk dk polls empty).1
     = ccount (asks downloader) (crawl thread_num fk pk dk polls empty).1
  /\ ccount is_csleep (crawl thread_num fk pk dk polls empty).1
     + (if (crawl thread_num fk pk dk polls empty).2 then 1 else 0)
     = ccount (asks downloader) (crawl thread_num fk pk dk polls empty).1
  /\ ccount (asks downloader) (crawl thread_num fk pk dk polls empty).1 <= length polls.
Proof.
  unfold crawl. destruct (poll_counts polls) as (H1 & H2 & H3 & H4).
  destruct (poll polls) as [evs done]. cbn [fst snd] in *.
  assert (Hd : forall f, (f = asks feeder \/ f = asks parser \/ f = asks downloader
                          \/ f = is_csleep) ->
               ccount f (if done then drain empty ++ [CLog MsgCrawlDone] else []) = 0).
  { intros f Hf. destruct done; [|reflexivity]. unfold drain, clear_if_nonempty.
    destruct Hf as [-> | [-> | [-> | ->]]];
      destruct (empty feeder), (empty parser), (empty downloader); reflexivity. }
  rewrite !ccount_app, !Hd by auto. cbn [startup ccount asks is_csleep].
  repeat split; lia.
Qed.

(** ** A parser that does not override [parse] *)

Section Unparsed.

Variable P : Parser.
Variable a : args.
Variable w : world.

Hypothesis parse_raises : forall r, exists e, parse P r = GRaise e.

Lemma step_unparsed o st :
  before_parse st = true ->
  let r := worker_step P a o st in
  before_parse r.1 = true /\ count is_put r.2 = 0 /\ count is_task_done r.2 = 0
  /\ count is_fetch_ok r.2 + crashed st = crashed r.1.
Proof.
  intros Hb. destruct st as [| | |url retry| | | |r|e]; try discriminate; cbn zeta;
    unfold worker_step, retry_loop, next_item.
  - case_match; cbn; auto.
  - repeat case_match; cbn; auto.
  - case_match; cbn; auto.
  - destruct (o_fetch o url) as [r|e]; [|case_match; cbn; auto].
    destruct (parse_raises r) as [e ->]. cbn. auto.
  - cbn. auto.
  - cbn. auto.
Qed.

Lemma exec_unparsed n : forall t st,
  before_parse st = true ->
  let r := worker_exec P a w t n st in
  before_parse r.1 = true /\ count is_put r.2 = 0 /\ count is_task_done r.2 = 0
  /\ count is_fetch_ok r.2 + crashed st = crashed r.1.
Proof.
  induction n as [|n IH]; intros t st Hb; [cbn; auto|].
  cbn zeta. rewrite worker_exec_S. cbn zeta. cbn [fst snd].
  destruct (step_unparsed (w t) st Hb) as (S1 & S2 & S3 & S4). cbn zeta in *.
  destruct (IH (S t) _ S1) as (I1 & I2 & I3 & I4). cbn zeta in *.
  rewrite !count_app. repeat split; [exact I1|lia..].
Qed.

End Unparsed.

(** X17: with a [parse] that raises as soon as it is called, as the one
    of the base class does, a worker never puts anything on a queue and
    never calls [task_done()]; failed fetches are retried and given up as
    usual, and the first fetch that answers is the last thing the worker
    does: it has been left by the exception exactly when one fetch has
    answered. *)
Theorem unparsed_worker_dies_on_first_page P a w t n :
  (forall r, exists e, parse P r = GRaise e) ->
  count is_put (trace (worker_exec P a w t n STop)) = 0
  /\ count is_task_done (trace (worker_exec P a w t n STop)) = 0
  /\ count is_fetch_ok (trace (worker_exec P a w t n STop))
     = crashed (final_state (worker_exec P a w t n STop))
  /\ count is_fetch_ok (trace (worker_exec P a w t n STop)) <= 1.
Proof.
  intros Hp. destruct (exec_unparsed P a w Hp n t STop eq_refl) as (_ & H2 & H3 & H4).
  cbn zeta in *. cbn [crashed] in H4. rewrite Nat.add_0_r in H4. unfold trace, final_state.
  repeat split; try assumption.
  rewrite H4. destruct (worker_exec P a w t n STop).1; cbn; lia.
Qed.

Lemma unparsed_worker_dies_on_first_page_witness :
  count is_fetch_ok (trace (worker_exec base_parser default_args (failing_until 3) 0 9 STop)) = 1
  /\ count is_task_done
       (trace (worker_exec base_parser default_args (failing_until 3) 0 9 STop)) = 0.
Proof.
  destruct (unparsed_worker_dies_on_first_page base_parser default_args (failing_until 3) 0 9)
    as (_ & H2 & H3 & _).
  - intros r. eexists. reflexivity.
  - split; [rewrite H3; vm_compute; reflexivity|exact H2].
Defined.
